(** * dag-flow: the C graph evaluator [run_node] and its operation library

    A shallow embedding of [graph_ctypes/source/node.c] (the recursive
    evaluator), [node.h] (the [Node] structure) and
    [graph_python_ctypes/source/library.c] (the operations a node's [fcn]
    field can point to), followed by the properties of the buffer ownership
    protocol and of the operations.

    Modelling choices.
    - A C [double] is a binary64 float: Rocq's primitive [float].
    - A pointer is [NULL] or the base address of a block; the code never
      does pointer arithmetic other than indexing.
    - Memory is typed: [Node] structures live in the [nodes] store,
      [double] arrays in the [mem] store.  Reading or writing outside a
      live block, dereferencing [NULL] and freeing a dead block are
      undefined in C and are a [Fault] here.
    - [int] values are integers of [Z]; the only arithmetic on them that
      can leave the [int] range, [sizes[0] - 1], is checked.
    - [run_node] is recursive on a pointer graph, so the embedding takes a
      bound [fuel] on the depth of nested calls and answers [OutOfFuel]
      when the bound is hit.
    - [sin] and [cosh] come from the C mathematics library, which is not
      part of the repository: they are parameters of the development. *)

From Stdlib Require Import ZArith Floats.PrimFloat.
From stdpp Require Import gmap list.

(** ** Outcomes of a computation *)

Inductive outcome (A : Type) : Type :=
  | Ok (a : A)
  | Fault
  | OutOfFuel.
Arguments Ok {A} a.
Arguments Fault {A}.
Arguments OutOfFuel {A}.

#[global] Instance outcome_ret : MRet outcome := λ A a, Ok a.
#[global] Instance outcome_bind : MBind outcome := λ A B k m,
  match m with
  | Ok a => k a
  | Fault => Fault
  | OutOfFuel => OutOfFuel
  end.

(** An operation of the library either returns or is undefined. *)
Definition lift {A} (o : option A) : outcome A :=
  match o with
  | Some a => Ok a
  | None => Fault
  end.

(** The two monads share what the loop lemmas need. *)
Class MonadOk (M : Type → Type) `{MBind M, MRet M} : Prop := {
  ret_inj {A} (a b : A) : mret (M := M) a = mret b → a = b;
  bind_ret {A B} (k : A → M B) (a : A) : mret a ≫= k = k a;
  bind_ok {A B} (k : A → M B) (m : M A) (b : B) :
    m ≫= k = mret b → ∃ a, m = mret a ∧ k a = mret b
}.

#[global] Instance option_monad_ok : MonadOk option.
Proof.
  split.
  - intros A a b [=]. done.
  - done.
  - intros A B k [a|] b Hb; [by exists a | done].
Qed.

#[global] Instance outcome_monad_ok : MonadOk outcome.
Proof.
  split.
  - intros A a b [=]. done.
  - done.
  - intros A B k [a| |] b Hb; [by exists a | done | done].
Qed.

(** ** The C [for] loop

    [for (int i = 0; i < n; i++) body] with a bound [n] that the body does
    not change: [Z.to_nat n] iterations, none when [n <= 0]. *)

Fixpoint for_loop {M : Type → Type} `{MBind M, MRet M} {S : Type}
    (count : nat) (i : Z) (body : Z → S → M S) (s : S) : M S :=
  match count with
  | O => mret s
  | Datatypes.S c => s' ← body i s; for_loop c (i + 1)%Z body s'
  end.

Definition for_upto {M : Type → Type} `{MBind M, MRet M} {S : Type}
    (n : Z) (body : Z → S → M S) (s : S) : M S :=
  for_loop (Z.to_nat n) 0%Z body s.

(** ** Memory *)

Definition loc := positive.

Inductive ptr : Type :=
  | NULL
  | Ptr (a : loc).

Arguments Ptr a%_positive.

#[global] Instance ptr_eq_dec : EqDecision ptr.
Proof. solve_decision. Defined.

(** The live [double] arrays, by base address. *)
Abbreviation heap := (gmap loc (list float)).

(** [a[i]] on a C array held as a list. *)
Definition index {A} (l : list A) (i : Z) : option A :=
  if (i <? 0)%Z then None else l !! Z.to_nat i.

(** [p[j]] as an rvalue. *)
Definition load (h : heap) (p : ptr) (j : Z) : option float :=
  match p with
  | NULL => None
  | Ptr a => l ← h !! a; index l j
  end.

(** [p[j] = v]. *)
Definition store (h : heap) (p : ptr) (j : Z) (v : float) : option heap :=
  match p with
  | NULL => None
  | Ptr a =>
      l ← h !! a;
      _ ← index l j;
      Some (<[a := <[Z.to_nat j := v]> l]> h)
  end.

(** [free(p)]: nothing for [NULL], undefined for a block that is not live. *)
Definition free (h : heap) (p : ptr) : option heap :=
  match p with
  | NULL => Some h
  | Ptr a =>
      match h !! a with
      | Some _ => Some (delete a h)
      | None => None
      end
  end.

Definition min_int : Z := (- 2 ^ 31)%Z.

(** [a - 1] on [int]: undefined when it leaves the range. *)
Definition int_pred (a : Z) : option Z :=
  if (a <=? min_int)%Z then None else Some (a - 1)%Z.

(** ** node.h *)

(** [double *( *fcn)(double **, int *, int, double * )].  The array of input
    buffers and the array of sizes are read-only for the callee and are
    passed by value. *)
Definition fcn_t : Type :=
  list ptr → list Z → Z → ptr → heap → option (ptr * heap).

Record Node : Type := {
  inputs : list ptr;
  input_sizes : list Z;
  input_count : Z;
  fcn : fcn_t;
  data : ptr
}.

Record state : Type := {
  nodes : gmap loc Node;
  mem : heap
}.

Definition set_mem (st : state) (h : heap) : state :=
  {| nodes := nodes st; mem := h |}.

(** [*node] *)
Definition load_node (st : state) (node : ptr) : option Node :=
  match node with
  | NULL => None
  | Ptr a => nodes st !! a
  end.

(** ** library.c *)

Section Library.

(** [sin] and [cosh] of [math.h]. *)
Variables (sin cosh : float → float).

Definition input_fcn : fcn_t := λ lists sizes num_lists data h,
  Some (data, h).

Definition sum_fcn : fcn_t := λ lists sizes num_lists data h,
  size ← index sizes 0;
  h ← for_upto num_lists (λ i h,
         for_upto size (λ j h,
           li ← index lists i;
           x ← load h li j;
           y ← load h data j;
           store h data j (y + x)%float) h) h;
  Some (data, h).

Definition product_fcn : fcn_t := λ lists sizes num_lists data h,
  size ← index sizes 0;
  h ← for_upto num_lists (λ i h,
         for_upto size (λ j h,
           li ← index lists i;
           x ← load h li j;
           y ← load h data j;
           store h data j (y * x)%float) h) h;
  Some (data, h).

Definition integration_fcn : fcn_t := λ lists sizes num_lists data h,
  values ← index lists 0;
  bins ← index lists 1;
  size ← index sizes 0;
  bound ← int_pred size;
  h ← for_upto bound (λ i h,
         v0 ← load h values i;
         v1 ← load h values (i + 1);
         b1 ← load h bins (i + 1);
         b0 ← load h bins i;
         acc ← load h data 0;
         store h data 0 (acc + 0.5 * (v0 + v1) * (b1 - b0))%float) h;
  Some (data, h).

Definition sin_fcn : fcn_t := λ lists sizes num_lists data h,
  input ← index lists 0;
  size ← index sizes 0;
  h ← for_upto size (λ i h,
         x ← load h input i;
         store h data i (sin x)) h;
  Some (data, h).

Definition cosh_fcn : fcn_t := λ lists sizes num_lists data h,
  input ← index lists 0;
  size ← index sizes 0;
  h ← for_upto size (λ i h,
         x ← load h input i;
         store h data i (cosh x)) h;
  Some (data, h).

End Library.

(** ** node.c *)

(** First loop of [run_node]: [input_results[i] = run_node(node->inputs[i])].
    [input_results] is the array obtained from [malloc]; it is private to
    the call and is held as a list of [input_count] slots. *)
Definition collect_inputs (run : ptr → state → outcome (ptr * state))
    (nd : Node) (st : state) : outcome (list ptr * state) :=
  for_upto (input_count nd) (λ i '(input_results, st),
      q ← lift (index (inputs nd) i);
      '(r, st) ← run q st;
      Ok (<[Z.to_nat i := r]> input_results, st))
    (replicate (Z.to_nat (input_count nd)) NULL, st).

(** Second loop of [run_node]:
    [if (!node->inputs[i]->data) free(input_results[i])]. *)
Definition release_inputs (nd : Node) (input_results : list ptr)
    (st : state) : outcome state :=
  for_upto (input_count nd) (λ i st,
      q ← lift (index (inputs nd) i);
      nq ← lift (load_node st q);
      match data nq with
      | NULL =>
          r ← lift (index input_results i);
          h ← lift (free (mem st) r);
          Ok (set_mem st h)
      | Ptr _ => Ok st
      end) st.

(** The fields of [*node] are read once, on entry: the node store is not
    written by the call (see [run_node_nodes]).  The [data] field of the
    inputs is read by the second loop, in the state the operation left. *)
Fixpoint run_node (fuel : nat) (node : ptr) (st : state)
    : outcome (ptr * state) :=
  match fuel with
  | O => OutOfFuel
  | S fuel =>
      nd ← lift (load_node st node);
      '(input_results, st) ← collect_inputs (run_node fuel) nd st;
      '(result, h) ← lift (fcn nd input_results (input_sizes nd)
                             (input_count nd) (data nd) (mem st));
      st ← release_inputs nd input_results (set_mem st h);
      Ok (result, st)
  end.

(** * Specifications

    The notions the properties are stated with: what the loops of
    [run_node] free, what the operations compute on lists, which graphs
    are meant, and two small graphs to run. *)

(** The buffer that the second loop hands to [free] at index [i], when
    it hands one and it is not [NULL]: input [i] is a node without data
    and [rs[i]] is that buffer. *)
Definition temporary (st : state) (nd : Node) (rs : list ptr) (i : Z)
    : option loc :=
  q ← index (inputs nd) i;
  nq ← load_node st q;
  match data nq with
  | NULL => r ← index rs i; match r with NULL => None | Ptr b => Some b end
  | Ptr _ => None
  end.

(** The buffers freed by the second loop. *)
Definition released (st : state) (nd : Node) (rs : list ptr) (b : loc)
    : Prop :=
  ∃ i, (0 ≤ i < input_count nd)%Z ∧ temporary st nd rs i = Some b.

(** One pass of the inner loop of [sum_fcn] and [product_fcn] over a
    buffer [l]: the first [size] cells of the accumulator are combined
    with those of [l], the others are left alone. *)
Fixpoint accum_row (f : float → float → float) (size : nat)
    (acc l : list float) : list float :=
  match size, acc, l with
  | S n, a :: acc', x :: l' => f a x :: accum_row f n acc' l'
  | _, _, _ => acc
  end.

(** The whole loop nest: one pass per input buffer, in order. *)
Definition accumulate (f : float → float → float) (size : nat)
    (acc : list float) (ls : list (list float)) : list float :=
  foldl (accum_row f size) acc ls.

(** Cell [j] of every input buffer, in input order. *)
Definition column (j : nat) (ls : list (list float)) : list float :=
  map (λ l, nth j l 0%float) ls.

(** The terms of the trapezoidal rule for values [v] on bin edges [b]. *)
Fixpoint trapezoids (v b : list float) : list float :=
  match v, b with
  | v0 :: (v1 :: _) as v', b0 :: (b1 :: _) as b' =>
      (0.5 * (v0 + v1) * (b1 - b0))%float :: trapezoids v' b'
  | _, _ => []
  end.

(** The bodies of the inner and of the outer loop of [sum_fcn] ([f] is
    [+]) and of [product_fcn] ([f] is [*]), named for the proofs. *)
Definition accum_inner (f : float → float → float) (lists : list ptr)
    (data : ptr) (i : Z) : Z → heap → option heap :=
  λ j h,
    li ← index lists i;
    x ← load h li j;
    y ← load h data j;
    store h data j (f y x).

Definition accum_outer (f : float → float → float) (lists : list ptr)
    (data : ptr) (size : Z) : Z → heap → option heap :=
  λ i h, for_upto size (accum_inner f lists data i) h.

(** An input buffer as an operation needs it: live, at least [n] cells
    long, and not the buffer [d] the operation writes. *)
Definition input_buffer (h : heap) (d : loc) (n : nat) (r : ptr)
    (l : list float) : Prop :=
  ∃ b, r = Ptr b ∧ b ≠ d ∧ h !! b = Some l ∧ n ≤ length l.

(** The body of the loop of [sin_fcn] and [cosh_fcn], named for the
    proofs. *)
Definition unary_body (g : float → float) (input data : ptr)
    : Z → heap → option heap :=
  λ i h, x ← load h input i; store h data i (g x).

(** The operations defined in library.c. *)
Definition builtin (sin cosh : float → float) (f : fcn_t) : Prop :=
  f = input_fcn ∨ f = sum_fcn ∨ f = product_fcn ∨ f = integration_fcn ∨
  f = sin_fcn sin ∨ f = cosh_fcn cosh.

(** ** The contract of an operation (step 3 of the algorithm)

    An operation frees nothing; it returns [data] when [data] is not
    [NULL], and otherwise [NULL] or a buffer that was not live when it
    was called. *)
Definition conforming (f : fcn_t) : Prop :=
  ∀ lists sizes k d (h : heap) r h',
    f lists sizes k d h = Some (r, h') →
    dom h ⊆ dom h' ∧
    match d with
    | NULL => ∀ b, r = Ptr b → b ∉ dom h
    | Ptr _ => r = d
    end.

(** The graph reachable from [node] is made of nodes of the store and has
    no path of input links with more than [d] nodes on it: it has no cycle
    and its depth is at most [d]. *)
Fixpoint depth_le (ns : gmap loc Node) (d : nat) (node : ptr) : bool :=
  match d with
  | O => false
  | S d' =>
      match node with
      | NULL => false
      | Ptr a =>
          match ns !! a with
          | None => false
          | Some nd =>
              forallb (depth_le ns d')
                (take (Z.to_nat (input_count nd)) (inputs nd))
          end
      end
  end.

(** Every node of the store uses an operation of library.c. *)
Definition all_builtin (sin cosh : float → float) (st : state) : Prop :=
  ∀ a nd, nodes st !! a = Some nd → builtin sin cosh (fcn nd).

(** ** A sample graph: [sum(sin(a), cosh(b))]

    Nodes 1 and 2 are the leaves [a] and [b], node 3 is [sin(a)], node 4
    is [cosh(b)] and node 5 is their sum.  Every node owns a buffer of two
    cells.  Node 6 is a leaf without data.  In the examples the library
    functions are stood for by their Taylor polynomials of degree three. *)
Module Sample.

Definition sin3 (x : float) : float := (x - x * x * x / 6)%float.
Definition cosh3 (x : float) : float := (1 + x * x / 2)%float.

Definition leaf (d : ptr) : Node :=
  {| inputs := []; input_sizes := []; input_count := 0;
     fcn := input_fcn; data := d |}.

Definition unary (f : fcn_t) (q d : positive) : Node :=
  {| inputs := [Ptr q]; input_sizes := [2%Z]; input_count := 1;
     fcn := f; data := Ptr d |}.

Definition sum_node : Node :=
  {| inputs := [Ptr 3; Ptr 4];
     input_sizes := [2%Z; 2%Z]; input_count := 2;
     fcn := sum_fcn; data := Ptr 15 |}.

Definition graph : gmap loc Node :=
  list_to_map
    [(1%positive, leaf (Ptr 11));
     (2%positive, leaf (Ptr 12));
     (3%positive, unary (sin_fcn sin3) 1%positive 13%positive);
     (4%positive, unary (cosh_fcn cosh3) 2%positive 14%positive);
     (5%positive, sum_node);
     (6%positive, leaf NULL)].

Definition buffers : heap :=
  list_to_map
    [(11%positive, [0.5; -1]%float);
     (12%positive, [2; 0]%float);
     (13%positive, [0; 0]%float);
     (14%positive, [0; 0]%float);
     (15%positive, [0; 0]%float)].

Definition st0 : state := {| nodes := graph; mem := buffers |}.

(** The state after evaluating node 3 and after evaluating nodes 3 and 4. *)
Definition st3 : state :=
  set_mem st0 (<[13%positive := map sin3 [0.5; -1]%float]> buffers).
Definition st4 : state :=
  set_mem st0 (<[14%positive := map cosh3 [2; 0]%float]> (mem st3)).

End Sample.

(** A graph with a temporary: [sin(copy(a))].  [copy_fcn] is not part of
    library.c; it is an operation of the kind the evaluator is written
    for, which allocates its result when its node has no data.  Node 7 is
    [copy(a)], without data, and node 8 is its sine. *)
Module Temporary.

Definition copy_fcn : fcn_t := λ lists sizes num_lists data h,
  match data with
  | Ptr _ => Some (data, h)
  | NULL =>
      input ← index lists 0;
      size ← index sizes 0;
      match input with
      | NULL => None
      | Ptr b =>
          l ← h !! b;
          let a := fresh (dom h) in
          Some (Ptr a, <[a := take (Z.to_nat size) l]> h)
      end
  end.

Definition copy_node : Node :=
  {| inputs := [Ptr 1]; input_sizes := [2%Z]; input_count := 1;
     fcn := copy_fcn; data := NULL |}.

Definition sin_node : Node :=
  Sample.unary (sin_fcn Sample.sin3) 7 16.

Definition st0 : state :=
  {| nodes := <[7%positive := copy_node]>
                (<[8%positive := sin_node]> Sample.graph);
     mem := <[16%positive := [0; 0]%float]> Sample.buffers |}.

(** The state after evaluating node 7, and after evaluating node 8. *)
Definition st7 : state :=
  set_mem st0 (<[17%positive := [0.5; -1]%float]> (mem st0)).
Definition st8 : state :=
  set_mem st0 (<[16%positive := map Sample.sin3 [0.5; -1]%float]> (mem st0)).

End Temporary.

(** A graph that breaks the contract: [sin(first(a))].  [first_fcn], not
    part of library.c either, returns its first input buffer as its own
    result although its node has no data.  Node 9 is [first(a)] and node
    10 is its sine. *)
Module Borrowed.

Definition first_fcn : fcn_t := λ lists sizes num_lists data h,
  input ← index lists 0;
  Some (input, h).

Definition first_node : Node :=
  {| inputs := [Ptr 1]; input_sizes := [2%Z]; input_count := 1;
     fcn := first_fcn; data := NULL |}.

Definition sin_node : Node :=
  Sample.unary (sin_fcn Sample.sin3) 9 16.

Definition st0 : state :=
  {| nodes := <[9%positive := first_node]>
                (<[10%positive := sin_node]> Sample.graph);
     mem := <[16%positive := [0; 0]%float]> Sample.buffers |}.

(** The state after evaluating node 10. *)
Definition st10 : state :=
  set_mem st0
    (delete 11%positive
       (<[16%positive := map Sample.sin3 [0.5; -1]%float]> (mem st0))).

End Borrowed.

(** A graph with a cycle: a node that is its own input. *)
Definition self_loop : state :=
  {| nodes := {[ 1%positive := Sample.unary input_fcn 1 11 ]};
     mem := {[ 11%positive := [0]%float ]} |}.

(** ** Notions for the further properties *)

(** The inputs evaluated one after the other, each in the state the
    previous one left, and the results in the same order. *)
Fixpoint eval_inputs (run : ptr → state → outcome (ptr * state))
    (qs : list ptr) (st : state) : outcome (list ptr * state) :=
  match qs with
  | [] => Ok ([], st)
  | q :: qs =>
      '(r, st) ← run q st;
      '(rs, st) ← eval_inputs run qs st;
      Ok (r :: rs, st)
  end.

(** What a call made for a node with data pointer [d] may do to the set
    of live buffers, [h] before and [h'] after, when it returns [r]: with
    data, return it and keep the set; without, return [NULL] and keep the
    set, or return one fresh buffer, the only addition to the set. *)
Definition owned_result (d r : ptr) (h h' : heap) : Prop :=
  match d with
  | Ptr _ => r = d ∧ dom h' = dom h
  | NULL =>
      match r with
      | NULL => dom h' = dom h
      | Ptr b => (b ∉ dom h) ∧ dom h' = {[b]} ∪ dom h
      end
  end.

(** An operation that keeps to the ownership protocol. *)
Definition owning (f : fcn_t) : Prop :=
  ∀ lists sizes k d (h : heap) r h',
    f lists sizes k d h = Some (r, h') → owned_result d r h h'.

(** Nodes of the three shapes used by a graph [sum(f(a), g(b))] on
    vectors of [n] cells. *)
Definition leaf_node (d : loc) : Node :=
  {| inputs := []; input_sizes := []; input_count := 0;
     fcn := input_fcn; data := Ptr d |}.

Definition unary_node (f : fcn_t) (q : loc) (n : nat) (d : loc) : Node :=
  {| inputs := [Ptr q]; input_sizes := [Z.of_nat n]; input_count := 1;
     fcn := f; data := Ptr d |}.

Definition sum2_node (q1 q2 : loc) (n : nat) (d : loc) : Node :=
  {| inputs := [Ptr q1; Ptr q2]; input_sizes := [Z.of_nat n; Z.of_nat n];
     input_count := 2; fcn := sum_fcn; data := Ptr d |}.

(** A node without data that has work to do: the sum of the leaf [a],
    node 20, with no buffer to add it into. *)
Module Dataless.

Definition sum_node : Node :=
  {| inputs := [Ptr 1]; input_sizes := [2%Z]; input_count := 1;
     fcn := sum_fcn; data := NULL |}.

Definition st0 : state :=
  {| nodes := <[20%positive := sum_node]> Sample.graph;
     mem := Sample.buffers |}.

End Dataless.

(** Two nodes without data whose operation returns [NULL]: node 21 is
    [input_fcn] over the temporary [copy(a)] of the graph above, node 22
    is [input_fcn] over [first(a)] taken twice, in the graph that breaks
    the contract. *)
Module NullResult.

Definition null_node : Node :=
  {| inputs := [Ptr 7]; input_sizes := [2%Z]; input_count := 1;
     fcn := input_fcn; data := NULL |}.

Definition st0 : state :=
  {| nodes := <[21%positive := null_node]> (nodes Temporary.st0);
     mem := mem Temporary.st0 |}.

(** The state when the operation of node 21 is called: the temporary,
    buffer 17, is live. *)
Definition st1 : state :=
  set_mem st0 (<[17%positive := [0.5; -1]%float]> (mem st0)).

Definition twice_node : Node :=
  {| inputs := [Ptr 9; Ptr 9]; input_sizes := [2%Z; 2%Z]; input_count := 2;
     fcn := input_fcn; data := NULL |}.

Definition st_twice : state :=
  {| nodes := <[22%positive := twice_node]> (nodes Borrowed.st0);
     mem := mem Borrowed.st0 |}.

End NullResult.

(** * Proofs *)

Arguments collect_inputs : simpl never.
Arguments release_inputs : simpl never.

(** ** Reasoning about loops *)

Section Loops.
Context {M : Type → Type} `{MonadOk M} {S : Type}.
Implicit Types (body : Z → S → M S) (P : Z → S → Prop).

(** Partial correctness: an invariant kept by every iteration that returns
    holds when the loop returns. *)
Lemma for_loop_inv P body count i0 s0 s' :
  P i0 s0 →
  (∀ i s s1, (i0 ≤ i < i0 + Z.of_nat count)%Z → P i s →
     body i s = mret s1 → P (i + 1)%Z s1) →
  for_loop count i0 body s0 = mret s' →
  P (i0 + Z.of_nat count)%Z s'.
Proof.
  revert i0 s0. induction count as [|c IH]; intros i0 s0 Hinit Hstep Hrun.
  - simpl in Hrun. apply ret_inj in Hrun as <-.
    by replace (i0 + Z.of_nat 0)%Z with i0 by lia.
  - simpl in Hrun. apply bind_ok in Hrun as (s1 & Hb & Hrun).
    replace (i0 + Z.of_nat (Datatypes.S c))%Z with ((i0 + 1) + Z.of_nat c)%Z by lia.
    apply (IH (i0 + 1)%Z s1); [| |done].
    + apply (Hstep i0 s0); [lia|done..].
    + intros i s s2 Hi. apply Hstep. lia.
Qed.

(** Total correctness: when every iteration returns and keeps the
    invariant, so does the loop. *)
Lemma for_loop_total P body count i0 s0 :
  P i0 s0 →
  (∀ i s, (i0 ≤ i < i0 + Z.of_nat count)%Z → P i s →
     ∃ s1, body i s = mret s1 ∧ P (i + 1)%Z s1) →
  ∃ s', for_loop count i0 body s0 = mret s' ∧ P (i0 + Z.of_nat count)%Z s'.
Proof.
  revert i0 s0. induction count as [|c IH]; intros i0 s0 Hinit Hstep.
  - exists s0. split; [done|]. by replace (i0 + Z.of_nat 0)%Z with i0 by lia.
  - destruct (Hstep i0 s0) as (s1 & Hb & Hs1); [lia|done|].
    destruct (IH (i0 + 1)%Z s1) as (s' & Hrun & H'); [done| |].
    + intros i s Hi. apply Hstep. lia.
    + exists s'. split.
      * simpl. by rewrite Hb, bind_ret.
      * by replace (i0 + Z.of_nat (Datatypes.S c))%Z with ((i0 + 1) + Z.of_nat c)%Z by lia.
Qed.

Lemma for_upto_inv P body n s0 s' :
  P 0%Z s0 →
  (∀ i s s1, (0 ≤ i < n)%Z → P i s → body i s = mret s1 → P (i + 1)%Z s1) →
  for_upto n body s0 = mret s' →
  P (Z.max 0 n) s'.
Proof.
  intros Hinit Hstep Hrun.
  replace (Z.max 0 n) with (0 + Z.of_nat (Z.to_nat n))%Z by lia.
  apply (for_loop_inv P body _ _ s0); [done| |done].
  intros i s s1 Hi. apply Hstep. lia.
Qed.

Lemma for_upto_total P body n s0 :
  P 0%Z s0 →
  (∀ i s, (0 ≤ i < n)%Z → P i s → ∃ s1, body i s = mret s1 ∧ P (i + 1)%Z s1) →
  ∃ s', for_upto n body s0 = mret s' ∧ P (Z.max 0 n) s'.
Proof.
  intros Hinit Hstep.
  replace (Z.max 0 n) with (0 + Z.of_nat (Z.to_nat n))%Z by lia.
  apply for_loop_total; [done|].
  intros i s Hi. apply Hstep. lia.
Qed.

End Loops.

(** The evaluator cannot run out of fuel inside a loop whose iterations do
    not. *)
Lemma for_loop_fuel {S} (P : Z → S → Prop) (body : Z → S → outcome S)
    count i0 s0 :
  P i0 s0 →
  (∀ i s, (i0 ≤ i < i0 + Z.of_nat count)%Z → P i s →
     body i s ≠ OutOfFuel ∧ ∀ s1, body i s = Ok s1 → P (i + 1)%Z s1) →
  for_loop count i0 body s0 ≠ OutOfFuel.
Proof.
  revert i0 s0. induction count as [|c IH]; intros i0 s0 Hinit Hstep; [done|].
  simpl. destruct (Hstep i0 s0) as [Hne Hnext]; [lia|done|].
  destruct (body i0 s0) as [s1| |] eqn:Hb; [|done..].
  simpl. apply (IH (i0 + 1)%Z s1); [by apply Hnext|].
  intros i s Hi. apply Hstep. lia.
Qed.

(** ** Elementary facts about memory *)

Lemma index_Some {A} (l : list A) (i : Z) (x : A) :
  index l i = Some x ↔ (0 ≤ i)%Z ∧ l !! Z.to_nat i = Some x.
Proof.
  unfold index. destruct (Z.ltb_spec i 0); [|naive_solver].
  split; [done|]. intros [? _]. lia.
Qed.

Lemma index_of_nat {A} (l : list A) (i : nat) : index l (Z.of_nat i) = l !! i.
Proof.
  unfold index. destruct (Z.ltb_spec (Z.of_nat i) 0); [lia|].
  by rewrite Nat2Z.id.
Qed.

Lemma store_dom h p j v h' : store h p j v = Some h' → dom h' = dom h.
Proof.
  destruct p as [|a]; [done|]. simpl.
  destruct (h !! a) as [l|] eqn:Hl; [|done]. simpl.
  destruct (index l j); [|done]. simpl. intros [= <-].
  rewrite dom_insert_L. apply elem_of_dom_2 in Hl. set_solver.
Qed.

Lemma free_dom h p h' :
  free h p = Some h' →
  dom h' = match p with NULL => dom h | Ptr a => dom h ∖ {[a]} end.
Proof.
  destruct p as [|a]; simpl; [by intros [= <-]|].
  destruct (h !! a); [|done]. intros [= <-]. by rewrite dom_delete_L.
Qed.

Lemma set_mem_id st : set_mem st (mem st) = st.
Proof. by destruct st. Qed.

(** ** Unfolding one call of [run_node] *)

Lemma run_node_unfold fuel node st r st' :
  run_node (S fuel) node st = Ok (r, st') ↔
  ∃ nd input_results st1 h,
    load_node st node = Some nd ∧
    collect_inputs (run_node fuel) nd st = Ok (input_results, st1) ∧
    fcn nd input_results (input_sizes nd) (input_count nd) (data nd) (mem st1)
      = Some (r, h) ∧
    release_inputs nd input_results (set_mem st1 h) = Ok st'.
Proof.
  simpl. split.
  - destruct (load_node st node) as [nd|] eqn:Hnd; [simpl|done].
    destruct (collect_inputs _ nd st) as [[rs st1]| |] eqn:Hc; [simpl|done..].
    destruct (fcn nd rs _ _ _ _) as [[r' h]|] eqn:Hf; [simpl|done].
    destruct (release_inputs nd rs _) as [st3| |] eqn:Hrel; simpl; [|done..].
    intros [= <- <-]. by exists nd, rs, st1, h.
  - intros (nd & rs & st1 & h & Hnd & Hc & Hf & Hrel).
    rewrite Hnd. simpl. rewrite Hc. simpl. rewrite Hf. simpl.
    by rewrite Hrel.
Qed.

(** ** The two loops of [run_node] *)

(** What the first loop establishes: a property [I] of the state kept by
    every recursive call, and a relation [R] between each input and the
    pointer stored for it. *)
Lemma collect_inputs_inv (run : ptr → state → outcome (ptr * state))
    (I : state → Prop) (R : ptr → ptr → Prop) nd st rs st1 :
  (∀ q s r s', I s → run q s = Ok (r, s') → I s' ∧ R q r) →
  I st →
  collect_inputs run nd st = Ok (rs, st1) →
  I st1 ∧ length rs = Z.to_nat (input_count nd) ∧
  ∀ i, (0 ≤ i < input_count nd)%Z →
    ∃ q r, index (inputs nd) i = Some q ∧ index rs i = Some r ∧ R q r.
Proof.
  intros Hrun Hst Hc. unfold collect_inputs in Hc.
  set (n := input_count nd) in *.
  pose (P := λ (i : Z) (s : list ptr * state),
    I s.2 ∧ length s.1 = Z.to_nat n ∧
    ∀ j, (0 ≤ j < i)%Z →
      ∃ q r, index (inputs nd) j = Some q ∧ index s.1 j = Some r ∧ R q r).
  apply (for_upto_inv P) in Hc.
  - destruct Hc as (HI & Hlen & Hall). repeat split; [done..|].
    intros i Hi. apply Hall. lia.
  - unfold P. simpl. repeat split; [done|by rewrite length_replicate|].
    intros j Hj. lia.
  - unfold P. intros i [rs0 s] [rs' s'] Hi (HI & Hlen & Hall) Hbody.
    simpl in *.
    destruct (index (inputs nd) i) as [q|] eqn:Hq; [simpl in Hbody|done].
    destruct (run q s) as [[r s2]| |] eqn:Hr; [simpl in Hbody|done..].
    injection Hbody as <- <-.
    destruct (Hrun q s r s2) as [HI2 HR]; [done..|].
    repeat split; [done|by rewrite length_insert|].
    intros j Hj. destruct (decide (j = i)) as [->|Hne].
    + exists q, r. repeat split; [done| |done].
      apply index_Some. split; [lia|].
      apply list_lookup_insert_eq. lia.
    + destruct (Hall j) as (q' & r' & Hq' & Hr' & HR'); [lia|].
      exists q', r'. repeat split; [done| |done].
      apply index_Some in Hr' as [? Hr']. apply index_Some. split; [done|].
      rewrite list_lookup_insert_ne; [done|]. lia.
Qed.

(** The loop frees exactly the [released] buffers and changes nothing
    else. *)
Lemma release_inputs_inv nd rs st st' :
  release_inputs nd rs st = Ok st' →
  nodes st' = nodes st ∧
  ∀ b, (released st nd rs b → mem st' !! b = None) ∧
       (¬ released st nd rs b → mem st' !! b = mem st !! b).
Proof.
  intros Hrel. unfold release_inputs in Hrel.
  pose (before := λ (i : Z) (b : loc),
    ∃ j, (0 ≤ j < i)%Z ∧ (j < input_count nd)%Z ∧
         temporary st nd rs j = Some b).
  pose (P := λ (i : Z) (s : state),
    nodes s = nodes st ∧
    ∀ b, (before i b → mem s !! b = None) ∧
         (¬ before i b → mem s !! b = mem st !! b)).
  apply (for_upto_inv P) in Hrel.
  - unfold P, before in Hrel. destruct Hrel as [Hn Hb]. split; [done|].
    intros b.
    destruct (Hb b) as [Hb1 Hb2]. split.
    + intros (i & Hi & Ht). apply Hb1. exists i. repeat split; [lia..|done].
    + intros Hnot. apply Hb2. intros (i & Hi & Hi' & Ht).
      apply Hnot. exists i. repeat split; [lia..|done].
  - unfold P, before. split; [done|]. intros b. split; [|done].
    intros (j & Hj & _). lia.
  - unfold P. intros i s s1 Hi [Hn Hb] Hbody.
    destruct (index (inputs nd) i) as [q|] eqn:Hq; [simpl in Hbody|done].
    destruct (load_node s q) as [nq|] eqn:Hnq; [simpl in Hbody|done].
    assert (Hnq' : load_node st q = Some nq).
    { destruct q; [done|]. simpl in *. by rewrite <- Hn. }
    assert (Hold : ∀ b, before (i + 1)%Z b → temporary st nd rs i ≠ Some b →
                        before i b).
    { intros b (j & Hj & Hj' & Ht) Hne. exists j.
      destruct (decide (j = i)) as [->|]; [done|]. repeat split; [lia..|done]. }
    destruct (data nq) as [|a] eqn:Hd.
    + destruct (index rs i) as [r|] eqn:Hr; [simpl in Hbody|done].
      destruct (free (mem s) r) as [h|] eqn:Hf; [simpl in Hbody|done].
      injection Hbody as <-. split; [done|]. intros b. simpl.
      assert (Ht : temporary st nd rs i =
                   match r with NULL => None | Ptr b => Some b end).
      { unfold temporary. rewrite Hq. simpl. rewrite Hnq'. simpl.
        rewrite Hd, Hr. done. }
      destruct r as [|a]; simpl in Hf.
      * injection Hf as <-. destruct (Hb b) as [Hb1 Hb2]. split.
        -- intros Hbef. apply Hb1, Hold; [done|]. by rewrite Ht.
        -- intros Hnot. apply Hb2. intros (j & Hj & Hj' & Hj'').
           apply Hnot. exists j. repeat split; [lia..|done].
      * destruct (mem s !! a) eqn:Ha; [|done]. injection Hf as <-.
        destruct (Hb b) as [Hb1 Hb2].
        destruct (decide (a = b)) as [->|Hab].
        -- rewrite lookup_delete_eq. split; [done|]. intros Hnot.
           destruct Hnot. exists i. repeat split; [lia..|done].
        -- rewrite lookup_delete_ne by done. split.
           ++ intros Hbef. apply Hb1, Hold; [done|]. rewrite Ht. congruence.
           ++ intros Hnot. apply Hb2. intros (j & Hj & Hj' & Hj'').
              apply Hnot. exists j. repeat split; [lia..|done].
    + injection Hbody as <-. split; [done|]. intros b.
      assert (Ht : temporary st nd rs i = None).
      { unfold temporary. rewrite Hq. simpl. rewrite Hnq'. simpl.
        by rewrite Hd. }
      destruct (Hb b) as [Hb1 Hb2]. split.
      * intros Hbef. apply Hb1, Hold; [done|]. by rewrite Ht.
      * intros Hnot. apply Hb2. intros (j & Hj & Hj' & Hj'').
        apply Hnot. exists j. repeat split; [lia..|done].
Qed.

(** The second loop writes no buffer: it only frees. *)
Lemma release_inputs_sub nd rs st st' :
  release_inputs nd rs st = Ok st' → mem st' ⊆ mem st.
Proof.
  intros Hr. apply release_inputs_inv in Hr as [_ Hb].
  apply map_subseteq_spec. intros b l Hl. destruct (Hb b) as [Hb1 Hb2].
  rewrite <- Hb2; [done|]. intros Hrel. apply Hb1 in Hrel. congruence.
Qed.

Lemma load_node_nodes st st' q :
  nodes st' = nodes st → load_node st' q = load_node st q.
Proof. intros Hn. destruct q; [done|]. simpl. by rewrite Hn. Qed.

Lemma temporary_nodes st st' nd rs i :
  nodes st' = nodes st → temporary st' nd rs i = temporary st nd rs i.
Proof.
  intros Hn. unfold temporary.
  destruct (index (inputs nd) i) as [q|]; [simpl|done].
  by rewrite (load_node_nodes st st').
Qed.

(** The second loop returns when every input is a node, every slot of
    [input_results] exists, and the buffers to free are live and pairwise
    distinct. *)
Lemma release_inputs_total nd rs st :
  length rs = Z.to_nat (input_count nd) →
  (∀ i, (0 ≤ i < input_count nd)%Z →
     ∃ q nq, index (inputs nd) i = Some q ∧ load_node st q = Some nq) →
  (∀ i j b, (0 ≤ i < input_count nd)%Z → (0 ≤ j < input_count nd)%Z →
     temporary st nd rs i = Some b → temporary st nd rs j = Some b → i = j) →
  (∀ i b, (0 ≤ i < input_count nd)%Z →
     temporary st nd rs i = Some b → is_Some (mem st !! b)) →
  ∃ st', release_inputs nd rs st = Ok st'.
Proof.
  intros Hlen Hwf Hdis Hlive.
  pose (P := λ (i : Z) (s : state),
    nodes s = nodes st ∧
    ∀ j b, (i ≤ j < input_count nd)%Z → temporary st nd rs j = Some b →
           mem s !! b = mem st !! b).
  destruct (for_upto_total (M := outcome) P
    (λ i st,
      q ← lift (index (inputs nd) i);
      nq ← lift (load_node st q);
      match data nq with
      | NULL =>
          r ← lift (index rs i);
          h ← lift (free (mem st) r);
          Ok (set_mem st h)
      | Ptr _ => Ok st
      end) (input_count nd) st) as (st' & Hrun & _); [..|by exists st'].
  - by split.
  - unfold P. intros i s Hi [Hn Hkeep].
    destruct (Hwf i Hi) as (q & nq & Hq & Hnq).
    rewrite Hq. simpl. rewrite (load_node_nodes st s) by done.
    rewrite Hnq. simpl.
    assert (Hnext : ∀ j b, (i + 1 ≤ j < input_count nd)%Z →
              temporary st nd rs j = Some b → mem s !! b = mem st !! b).
    { intros j b Hj Ht. apply (Hkeep j b); [lia|done]. }
    destruct (data nq) as [|a] eqn:Hd; [|by exists s].
    destruct (index rs i) as [r|] eqn:Hr.
    2:{ apply eq_None_not_Some in Hr. destruct Hr.
        unfold index. destruct (Z.ltb_spec i 0); [lia|].
        apply lookup_lt_is_Some. lia. }
    simpl. destruct r as [|b]; simpl.
    { exists (set_mem s (mem s)). by rewrite set_mem_id. }
    assert (Ht : temporary st nd rs i = Some b).
    { unfold temporary. rewrite Hq. simpl. rewrite Hnq. simpl.
      by rewrite Hd, Hr. }
    destruct (Hlive i b Hi Ht) as [l Hl].
    rewrite (Hkeep i b), Hl by (done || lia). simpl.
    eexists. split; [done|]. split; [done|]. simpl.
    intros j b' Hj Hj'. rewrite lookup_delete_ne; [by apply (Hnext j b')|].
    intros ->. assert (i = j) by (apply (Hdis i j b'); (done || lia)). lia.
Qed.

(** [run_node] reads the node structures and never writes them. *)
Lemma run_node_nodes fuel node st r st' :
  run_node fuel node st = Ok (r, st') →
  nodes st' = nodes st ∧ is_Some (load_node st node).
Proof.
  revert node st r st'. induction fuel as [|fuel IH]; [done|].
  intros node st r st' Hrun.
  apply run_node_unfold in Hrun as (nd & rs & st1 & h & Hnd & Hc & _ & Hr).
  destruct (collect_inputs_inv (run_node fuel)
              (λ s, nodes s = nodes st) (λ _ _, True)
              nd st rs st1) as (Hn1 & _); [|done|done|].
  { intros q s r0 s' Hs Hrun. split; [|done].
    apply IH in Hrun as [-> _]. done. }
  apply release_inputs_inv in Hr as [Hn2 _]. simpl in Hn2.
  split; [congruence|by exists nd].
Qed.

(** A call of [run_node] returns what the operation returned, in the
    memory the operation left minus the [released] buffers. *)
Lemma run_node_intro fuel node st nd rs st1 r h :
  load_node st node = Some nd →
  collect_inputs (run_node fuel) nd st = Ok (rs, st1) →
  fcn nd rs (input_sizes nd) (input_count nd) (data nd) (mem st1)
    = Some (r, h) →
  (∀ i j b, (0 ≤ i < input_count nd)%Z → (0 ≤ j < input_count nd)%Z →
     temporary st nd rs i = Some b → temporary st nd rs j = Some b → i = j) →
  (∀ i b, (0 ≤ i < input_count nd)%Z →
     temporary st nd rs i = Some b → is_Some (h !! b)) →
  ∃ st', run_node (S fuel) node st = Ok (r, st') ∧
         nodes st' = nodes st ∧
         ∀ b, (released st nd rs b → mem st' !! b = None) ∧
              (¬ released st nd rs b → mem st' !! b = h !! b).
Proof.
  intros Hnd Hc Hf Hdis Hlive.
  destruct (collect_inputs_inv (run_node fuel) (λ s, nodes s = nodes st)
              (λ q _, is_Some (load_node st q)) nd st rs st1)
    as (Hn1 & Hlen & Hwf); [|done|done|].
  { intros q s r' s' Hn Hrun. apply run_node_nodes in Hrun as [Hn' Hq].
    split; [congruence|]. by rewrite <- (load_node_nodes st s). }
  assert (Htmp : ∀ i, temporary (set_mem st1 h) nd rs i = temporary st nd rs i).
  { intros i. by apply temporary_nodes. }
  destruct (release_inputs_total nd rs (set_mem st1 h)) as [st' Hrel].
  - done.
  - intros i Hi. destruct (Hwf i Hi) as (q & r' & Hq & _ & [nq Hnq]).
    exists q, nq. split; [done|].
    by rewrite (load_node_nodes st (set_mem st1 h)).
  - intros i j b Hi Hj. rewrite !Htmp. by apply Hdis.
  - intros i b Hi. rewrite Htmp. simpl. by apply Hlive.
  - exists st'. split.
    { apply run_node_unfold. by exists nd, rs, st1, h. }
    apply release_inputs_inv in Hrel as [Hn2 Hb]. simpl in *.
    split; [congruence|]. intros b. destruct (Hb b) as [Hb1 Hb2].
    assert (Hiff : released (set_mem st1 h) nd rs b ↔ released st nd rs b).
    { unfold released. by setoid_rewrite Htmp. }
    split; intros Hx; [apply Hb1|apply Hb2]; by rewrite Hiff.
Qed.

(** ** What the operations compute, on lists *)

Lemma accum_row_length f size acc l :
  length (accum_row f size acc l) = length acc.
Proof.
  revert acc l. induction size as [|n IH]; intros [|a acc] [|x l]; simpl;
    auto.
Qed.

Lemma accum_row_lookup_next f j acc l :
  accum_row f j acc l !! j = acc !! j.
Proof.
  revert acc l. induction j as [|j IH]; intros [|a acc] [|x l]; simpl; auto.
Qed.

Lemma accum_row_step f j acc l y x :
  acc !! j = Some y → l !! j = Some x →
  <[j := f y x]> (accum_row f j acc l) = accum_row f (S j) acc l.
Proof.
  revert acc l. induction j as [|j IH]; intros [|a acc] [|b l] Hy Hx;
    simplify_eq/=; [done|].
  f_equal. by apply IH.
Qed.

Lemma accum_row_lookup f size acc l j a x :
  j < size → acc !! j = Some a → l !! j = Some x →
  accum_row f size acc l !! j = Some (f a x).
Proof.
  revert size acc l. induction j as [|j IH];
    intros [|n] [|a' acc] [|x' l] Hj Ha Hx; simplify_eq/=; try lia; [done|].
  apply IH; [lia|done..].
Qed.

Lemma accumulate_length f size acc ls :
  length (accumulate f size acc ls) = length acc.
Proof.
  unfold accumulate. revert acc. induction ls as [|l ls IH]; intros acc;
    simpl; [done|].
  by rewrite IH, accum_row_length.
Qed.

(** Cell [j] of the result is the left-to-right fold of [f] over cell [j]
    of the inputs, started from cell [j] of the accumulator. *)
Lemma accumulate_lookup f size acc ls j a :
  j < size → acc !! j = Some a →
  Forall (λ l, size ≤ length l) ls →
  accumulate f size acc ls !! j = Some (foldl f a (column j ls)).
Proof.
  unfold accumulate. intros Hj. revert acc a.
  induction ls as [|l ls IH]; intros acc a Ha Hls; simpl; [done|].
  apply Forall_cons in Hls as [Hl Hls].
  destruct (lookup_lt_is_Some_2 l j) as [x Hx]; [lia|].
  rewrite (nth_lookup_Some _ _ _ _ Hx).
  apply IH; [|done]. by apply accum_row_lookup.
Qed.

Lemma trapezoids_lookup v b i v0 v1 b0 b1 :
  v !! i = Some v0 → v !! S i = Some v1 →
  b !! i = Some b0 → b !! S i = Some b1 →
  trapezoids v b !! i = Some (0.5 * (v0 + v1) * (b1 - b0))%float.
Proof.
  revert v b. induction i as [|i IH].
  - intros [|? [|? v]] [|? [|? b]] ????; by simplify_eq/=.
  - intros [|x [|x' v]] [|y [|y' b]] Hv0 Hv1 Hb0 Hb1; simplify_eq/=.
    by apply (IH (x' :: v) (y' :: b)).
Qed.

Lemma trapezoids_length v b :
  length v = length b → length (trapezoids v b) = length v - 1.
Proof.
  revert b. induction v as [|x [|x' v] IH]; intros [|y [|y' b]] Hlen;
    simplify_eq/=; [done..|].
  rewrite (IH (y' :: b)) by (simpl; lia). simpl. lia.
Qed.

(** ** The operations on memory *)

Lemma load_Some h a l i x :
  h !! a = Some l → (0 ≤ i)%Z → l !! Z.to_nat i = Some x →
  load h (Ptr a) i = Some x.
Proof.
  intros Hl Hi Hx. simpl. rewrite Hl. simpl. by apply index_Some.
Qed.

Lemma store_Some h a l i v :
  h !! a = Some l → (0 ≤ i)%Z → Z.to_nat i < length l →
  store h (Ptr a) i v = Some (<[a := <[Z.to_nat i := v]> l]> h).
Proof.
  intros Hl Hi Hlt. simpl. rewrite Hl. simpl.
  destruct (lookup_lt_is_Some_2 l (Z.to_nat i) Hlt) as [x Hx].
  by rewrite (proj2 (index_Some l i x) (conj Hi Hx)).
Qed.

Lemma accum_inner_spec f lists d (h : heap) i b l acc (n : nat) :
  index lists i = Some (Ptr b) → b ≠ d → h !! b = Some l →
  n ≤ length l → n ≤ length acc →
  for_upto (Z.of_nat n) (accum_inner f lists (Ptr d) i) (<[d := acc]> h)
    = Some (<[d := accum_row f n acc l]> h).
Proof.
  intros Hli Hne Hl Hnl Hna.
  pose (P := λ (j : Z) (s : heap),
    s = <[d := accum_row f (Z.to_nat j) acc l]> h).
  destruct (for_upto_total (M := option) P (accum_inner f lists (Ptr d) i)
              (Z.of_nat n) (<[d := acc]> h)) as (s' & Hrun & HP).
  - done.
  - unfold P. intros j s Hj ->. unfold accum_inner. rewrite Hli. simpl.
    destruct (lookup_lt_is_Some_2 l (Z.to_nat j)) as [x Hx]; [lia|].
    destruct (lookup_lt_is_Some_2 acc (Z.to_nat j)) as [y Hy]; [lia|].
    assert (Hb : ∀ a, <[d := a]> h !! b = Some l)
      by (intros a; rewrite lookup_insert_ne; congruence).
    rewrite Hb. simpl.
    rewrite (proj2 (index_Some l j x)) by (split; [lia|done]). simpl.
    rewrite lookup_insert_eq. simpl.
    rewrite (proj2 (index_Some _ j y))
      by (split; [lia|by rewrite accum_row_lookup_next]).
    simpl. eexists. split; [done|].
    rewrite insert_insert_eq. f_equal.
    replace (Z.to_nat (j + 1)) with (S (Z.to_nat j)) by lia.
    by apply accum_row_step.
  - rewrite Hrun. unfold P in HP. rewrite HP. do 3 f_equal. lia.
Qed.

Lemma accum_outer_spec f rs ls d (h : heap) acc (n : nat) :
  h !! d = Some acc → n ≤ length acc →
  Forall2 (input_buffer h d n) rs ls →
  for_upto (Z.of_nat (length rs)) (accum_outer f rs (Ptr d) (Z.of_nat n)) h
    = Some (<[d := accumulate f n acc ls]> h).
Proof.
  intros Hd Hna Hin.
  pose (P := λ (i : Z) (s : heap),
    s = <[d := accumulate f n acc (take (Z.to_nat i) ls)]> h).
  destruct (for_upto_total (M := option) P
              (accum_outer f rs (Ptr d) (Z.of_nat n))
              (Z.of_nat (length rs)) h) as (s' & Hrun & HP).
  - unfold P. simpl. by rewrite insert_id.
  - unfold P. intros i s Hi ->.
    destruct (lookup_lt_is_Some_2 rs (Z.to_nat i)) as [r Hr]; [lia|].
    destruct (Forall2_lookup_l _ _ _ _ _ Hin Hr)
      as (l & Hl & b & -> & Hb & Hhb & Hlen).
    eexists. split.
    + unfold accum_outer. apply (accum_inner_spec f rs d h i b l); try done.
      * apply index_Some. split; [lia|done].
      * by rewrite accumulate_length.
    + replace (Z.to_nat (i + 1)) with (S (Z.to_nat i)) by lia.
      rewrite (take_S_r _ _ _ Hl). unfold accumulate.
      by rewrite foldl_snoc.
  - rewrite Hrun. unfold P in HP. rewrite HP. do 3 f_equal.
    rewrite take_ge; [done|]. apply Forall2_length in Hin. lia.
Qed.

Lemma sum_fcn_spec rs ls sizes d (h : heap) acc (n : nat) :
  index sizes 0 = Some (Z.of_nat n) →
  h !! d = Some acc → n ≤ length acc →
  Forall2 (input_buffer h d n) rs ls →
  sum_fcn rs sizes (Z.of_nat (length rs)) (Ptr d) h
    = Some (Ptr d, <[d := accumulate PrimFloat.add n acc ls]> h).
Proof.
  intros Hsz Hd Hna Hin. unfold sum_fcn. rewrite Hsz. simpl.
  change (for_upto (Z.of_nat (length rs)) _ h)
    with (for_upto (Z.of_nat (length rs))
            (accum_outer PrimFloat.add rs (Ptr d) (Z.of_nat n)) h).
  by rewrite (accum_outer_spec _ rs ls d h acc n).
Qed.

Lemma product_fcn_spec rs ls sizes d (h : heap) acc (n : nat) :
  index sizes 0 = Some (Z.of_nat n) →
  h !! d = Some acc → n ≤ length acc →
  Forall2 (input_buffer h d n) rs ls →
  product_fcn rs sizes (Z.of_nat (length rs)) (Ptr d) h
    = Some (Ptr d, <[d := accumulate PrimFloat.mul n acc ls]> h).
Proof.
  intros Hsz Hd Hna Hin. unfold product_fcn. rewrite Hsz. simpl.
  change (for_upto (Z.of_nat (length rs)) _ h)
    with (for_upto (Z.of_nat (length rs))
            (accum_outer PrimFloat.mul rs (Ptr d) (Z.of_nat n)) h).
  by rewrite (accum_outer_spec _ rs ls d h acc n).
Qed.

Arguments load : simpl never.
Arguments store : simpl never.

Lemma map_prefix_lookup (g : float → float) (x y : list float) i :
  i ≤ length x →
  (map g (take i x) ++ drop i y) !! i = y !! i.
Proof.
  intros Hi. rewrite lookup_app_r; rewrite length_map, length_take; [|lia].
  rewrite lookup_drop. f_equal. lia.
Qed.

Lemma map_prefix_step (g : float → float) (x y : list float) i xi :
  x !! i = Some xi → i < length y →
  <[i := g xi]> (map g (take i x) ++ drop i y)
    = map g (take (S i) x) ++ drop (S i) y.
Proof.
  intros Hx Hy. apply lookup_lt_Some in Hx as Hlt.
  destruct (lookup_lt_is_Some_2 y i Hy) as [yi Hyi].
  rewrite (take_S_r _ _ _ Hx), map_app, <- app_assoc. simpl.
  rewrite (drop_S _ _ _ Hyi).
  rewrite insert_app_r_alt; rewrite length_map, length_take; [|lia].
  by replace (i - i `min` length x) with 0 by lia.
Qed.

(** The input buffer may be the output buffer: cell [i] is read before it
    is written. *)
Lemma unary_loop_spec g b d (h : heap) x y (n : nat) :
  h !! b = Some x → h !! d = Some y → n ≤ length x → n ≤ length y →
  for_upto (Z.of_nat n) (unary_body g (Ptr b) (Ptr d)) h
    = Some (<[d := map g (take n x) ++ drop n y]> h).
Proof.
  intros Hx Hy Hnx Hny.
  pose (P := λ (i : Z) (s : heap),
    s = <[d := map g (take (Z.to_nat i) x) ++ drop (Z.to_nat i) y]> h).
  destruct (for_upto_total (M := option) P (unary_body g (Ptr b) (Ptr d))
              (Z.of_nat n) h) as (s' & Hrun & HP).
  - unfold P. simpl. by rewrite insert_id.
  - unfold P. intros i s Hi ->. unfold unary_body.
    destruct (lookup_lt_is_Some_2 x (Z.to_nat i)) as [xi Hxi]; [lia|].
    set (A := map g (take (Z.to_nat i) x) ++ drop (Z.to_nat i) y).
    assert (Hload : load (<[d := A]> h) (Ptr b) i = Some xi).
    { destruct (decide (b = d)) as [->|Hne].
      - apply (load_Some _ _ A); [by rewrite lookup_insert_eq|lia|].
        unfold A. rewrite map_prefix_lookup by lia. congruence.
      - apply (load_Some _ _ x); [|lia|done].
        rewrite lookup_insert_ne; congruence. }
    rewrite Hload. simpl.
    rewrite (store_Some _ d A); [|by rewrite lookup_insert_eq|lia|].
    2:{ unfold A. rewrite length_app, length_map, length_take, length_drop.
        lia. }
    eexists. split; [done|]. rewrite insert_insert_eq. f_equal.
    replace (Z.to_nat (i + 1)) with (S (Z.to_nat i)) by lia.
    apply map_prefix_step; [done|lia].
  - rewrite Hrun. unfold P in HP.
    by replace (Z.to_nat (0 `max` Z.of_nat n)) with n in HP by lia; subst s'.
Qed.

Section UnaryOps.
Variables (sin cosh : float → float).

Lemma sin_fcn_spec rs sizes k b d (h : heap) x y (n : nat) :
  index rs 0 = Some (Ptr b) → index sizes 0 = Some (Z.of_nat n) →
  h !! b = Some x → h !! d = Some y → n ≤ length x → n ≤ length y →
  sin_fcn sin rs sizes k (Ptr d) h
    = Some (Ptr d, <[d := map sin (take n x) ++ drop n y]> h).
Proof.
  intros Hrs Hsz Hx Hy Hnx Hny. unfold sin_fcn. rewrite Hrs, Hsz. simpl.
  change (for_upto (Z.of_nat n) _ h)
    with (for_upto (Z.of_nat n) (unary_body sin (Ptr b) (Ptr d)) h).
  by rewrite (unary_loop_spec sin b d h x y n).
Qed.

Lemma cosh_fcn_spec rs sizes k b d (h : heap) x y (n : nat) :
  index rs 0 = Some (Ptr b) → index sizes 0 = Some (Z.of_nat n) →
  h !! b = Some x → h !! d = Some y → n ≤ length x → n ≤ length y →
  cosh_fcn cosh rs sizes k (Ptr d) h
    = Some (Ptr d, <[d := map cosh (take n x) ++ drop n y]> h).
Proof.
  intros Hrs Hsz Hx Hy Hnx Hny. unfold cosh_fcn. rewrite Hrs, Hsz. simpl.
  change (for_upto (Z.of_nat n) _ h)
    with (for_upto (Z.of_nat n) (unary_body cosh (Ptr b) (Ptr d)) h).
  by rewrite (unary_loop_spec cosh b d h x y n).
Qed.

End UnaryOps.

(** The trapezoidal rule accumulated into [data[0]]. *)
Lemma integration_fcn_spec rs sizes k bv bb d (h : heap) v b a0 rest :
  index rs 0 = Some (Ptr bv) → index rs 1 = Some (Ptr bb) →
  index sizes 0 = Some (Z.of_nat (length v)) →
  bv ≠ d → bb ≠ d →
  h !! bv = Some v → h !! bb = Some b → length b = length v →
  h !! d = Some (a0 :: rest) →
  integration_fcn rs sizes k (Ptr d) h
    = Some (Ptr d,
            <[d := foldl PrimFloat.add a0 (trapezoids v b) :: rest]> h).
Proof.
  intros Hv Hb Hsz Hnv Hnb Hhv Hhb Hlen Hd.
  unfold integration_fcn. rewrite Hv, Hb, Hsz. simpl.
  assert (Hpred : int_pred (Z.of_nat (length v))
                  = Some (Z.of_nat (length v) - 1)%Z).
  { unfold int_pred, min_int.
    destruct (Z.leb_spec (Z.of_nat (length v)) (- 2 ^ 31)); [lia|done]. }
  rewrite Hpred. simpl.
  set (T := trapezoids v b).
  assert (HT : length T = length v - 1) by (by apply trapezoids_length).
  pose (P := λ (i : Z) (s : heap),
    s = <[d := foldl PrimFloat.add a0 (take (Z.to_nat i) T) :: rest]> h).
  match goal with
  | |- for_upto ?n ?body h ≫= _ = _ =>
      destruct (for_upto_total (M := option) P body n h) as (s' & Hrun & HP)
  end.
  - unfold P. simpl. by rewrite insert_id.
  - unfold P. intros i s Hi ->.
    destruct (lookup_lt_is_Some_2 v (Z.to_nat i)) as [v0 Hv0]; [lia|].
    destruct (lookup_lt_is_Some_2 v (S (Z.to_nat i))) as [v1 Hv1]; [lia|].
    destruct (lookup_lt_is_Some_2 b (Z.to_nat i)) as [b0 Hb0]; [lia|].
    destruct (lookup_lt_is_Some_2 b (S (Z.to_nat i))) as [b1 Hb1]; [lia|].
    set (acc := foldl PrimFloat.add a0 (take (Z.to_nat i) T)).
    assert (Hfv : <[d := acc :: rest]> h !! bv = Some v)
      by (rewrite lookup_insert_ne; congruence).
    assert (Hfb : <[d := acc :: rest]> h !! bb = Some b)
      by (rewrite lookup_insert_ne; congruence).
    rewrite (load_Some _ bv v i v0) by (done || lia). simpl.
    rewrite (load_Some _ bv v (i + 1) v1);
      [|done|lia|by replace (Z.to_nat (i + 1)) with (S (Z.to_nat i)) by lia].
    simpl.
    rewrite (load_Some _ bb b (i + 1) b1);
      [|done|lia|by replace (Z.to_nat (i + 1)) with (S (Z.to_nat i)) by lia].
    simpl.
    rewrite (load_Some _ bb b i b0) by (done || lia). simpl.
    rewrite (load_Some _ d (acc :: rest) 0 acc);
      [|by rewrite lookup_insert_eq|lia|done].
    simpl.
    rewrite (store_Some _ d (acc :: rest));
      [|by rewrite lookup_insert_eq|lia|simpl; lia].
    eexists. split; [done|]. rewrite insert_insert_eq. simpl. f_equal.
    replace (Z.to_nat (i + 1)) with (S (Z.to_nat i)) by lia.
    rewrite (take_S_r T (Z.to_nat i) (0.5 * (v0 + v1) * (b1 - b0))%float).
    + by rewrite foldl_snoc.
    + by apply trapezoids_lookup.
  - rewrite Hrun. simpl. unfold P in HP. rewrite HP.
    rewrite (take_ge T); [done|lia].
Qed.

(** ** The operations of the library return [data] and allocate nothing *)

Lemma for_upto_dom (body : Z → heap → option heap) n (h h' : heap) :
  (∀ i s s', body i s = Some s' → dom s' = dom s) →
  for_upto n body h = Some h' → dom h' = dom h.
Proof.
  intros Hbody Hrun.
  apply (for_upto_inv (M := option) (λ _ s, dom s = dom h) body n h h');
    [done| |done].
  intros i s s1 _ Hs Hb. apply Hbody in Hb. congruence.
Qed.

Lemma accum_outer_dom f lists data size n (h h' : heap) :
  for_upto n (accum_outer f lists data size) h = Some h' → dom h' = dom h.
Proof.
  apply for_upto_dom. intros i s s'. unfold accum_outer.
  apply for_upto_dom. intros j t t'. unfold accum_inner. intros Hb.
  destruct (index lists i) as [li|]; [simpl in Hb|done].
  destruct (load t li j) as [x|]; [simpl in Hb|done].
  destruct (load t data j) as [y|]; [simpl in Hb|done].
  by apply store_dom in Hb.
Qed.

Lemma unary_body_dom g input data n (h h' : heap) :
  for_upto n (unary_body g input data) h = Some h' → dom h' = dom h.
Proof.
  apply for_upto_dom. intros i s s'. unfold unary_body. intros Hb.
  destruct (load s input i) as [x|]; [simpl in Hb|done].
  by apply store_dom in Hb.
Qed.

Section Builtin.
Variables (sin cosh : float → float).

Lemma builtin_returns_data f lists sizes k d (h : heap) r h' :
  builtin sin cosh f → f lists sizes k d h = Some (r, h') →
  r = d ∧ dom h' = dom h.
Proof.
  intros [->|[->|[->|[->|[->| ->]]]]] Hf.
  - by injection Hf as <- <-.
  - unfold sum_fcn in Hf.
    destruct (index sizes 0) as [size|]; [simpl in Hf|done].
    change (for_upto k _ h) with (for_upto k
      (accum_outer PrimFloat.add lists d size) h) in Hf.
    destruct (for_upto k _ h) as [h1|] eqn:Hl; [simpl in Hf|done].
    injection Hf as <- <-. split; [done|]. by apply accum_outer_dom in Hl.
  - unfold product_fcn in Hf.
    destruct (index sizes 0) as [size|]; [simpl in Hf|done].
    change (for_upto k _ h) with (for_upto k
      (accum_outer PrimFloat.mul lists d size) h) in Hf.
    destruct (for_upto k _ h) as [h1|] eqn:Hl; [simpl in Hf|done].
    injection Hf as <- <-. split; [done|]. by apply accum_outer_dom in Hl.
  - unfold integration_fcn in Hf.
    destruct (index lists 0) as [values|]; [simpl in Hf|done].
    destruct (index lists 1) as [bins|]; [simpl in Hf|done].
    destruct (index sizes 0) as [size|]; [simpl in Hf|done].
    destruct (int_pred size) as [bound|]; [simpl in Hf|done].
    destruct (for_upto bound _ h) as [h1|] eqn:Hl; [simpl in Hf|done].
    injection Hf as <- <-. split; [done|].
    apply for_upto_dom in Hl; [done|]. intros i s s' Hb.
    destruct (load s values i); [simpl in Hb|done].
    destruct (load s values (i + 1)); [simpl in Hb|done].
    destruct (load s bins (i + 1)); [simpl in Hb|done].
    destruct (load s bins i); [simpl in Hb|done].
    destruct (load s d 0); [simpl in Hb|done].
    by apply store_dom in Hb.
  - unfold sin_fcn in Hf.
    destruct (index lists 0) as [input|]; [simpl in Hf|done].
    destruct (index sizes 0) as [size|]; [simpl in Hf|done].
    change (for_upto size _ h) with (for_upto size
      (unary_body sin input d) h) in Hf.
    destruct (for_upto size _ h) as [h1|] eqn:Hl; [simpl in Hf|done].
    injection Hf as <- <-. split; [done|]. by apply unary_body_dom in Hl.
  - unfold cosh_fcn in Hf.
    destruct (index lists 0) as [input|]; [simpl in Hf|done].
    destruct (index sizes 0) as [size|]; [simpl in Hf|done].
    change (for_upto size _ h) with (for_upto size
      (unary_body cosh input d) h) in Hf.
    destruct (for_upto size _ h) as [h1|] eqn:Hl; [simpl in Hf|done].
    injection Hf as <- <-. split; [done|]. by apply unary_body_dom in Hl.
Qed.

End Builtin.

Lemma builtin_conforming sin cosh f : builtin sin cosh f → conforming f.
Proof.
  intros Hb lists sizes k d h r h' Hf.
  destruct (builtin_returns_data sin cosh f lists sizes k d h r h' Hb Hf)
    as [-> Hdom].
  split; [by rewrite Hdom|]. by destruct d.
Qed.

(** Under the contract a call frees only what was allocated during the
    call. *)
Lemma run_node_keeps_live fuel node st r st' :
  (∀ a nd, nodes st !! a = Some nd → conforming (fcn nd)) →
  run_node fuel node st = Ok (r, st') →
  dom (mem st) ⊆ dom (mem st') ∧
  ∃ nd, load_node st node = Some nd ∧
    match data nd with
    | NULL => ∀ b, r = Ptr b → b ∉ dom (mem st)
    | Ptr _ => r = data nd
    end.
Proof.
  revert node st r st'. induction fuel as [|fuel IH]; [done|].
  intros node st r st' Hconf Hrun.
  apply run_node_unfold in Hrun as (nd & rs & st1 & h & Hnd & Hc & Hf & Hr).
  destruct (collect_inputs_inv (run_node fuel)
    (λ s, nodes s = nodes st ∧ dom (mem st) ⊆ dom (mem s))
    (λ q r, ∃ nq, load_node st q = Some nq ∧
       (data nq = NULL → ∀ b, r = Ptr b → b ∉ dom (mem st)))
    nd st rs st1) as ([Hn1 Hsub] & Hlen & Hres); [|done|done|].
  { intros q s r0 s' [Hn Hs] Hq.
    apply run_node_nodes in Hq as Hq'. destruct Hq' as [Hn' _].
    apply IH in Hq as (Hs' & nq & Hnq & Hd); [|by rewrite Hn].
    split; [split; [congruence|set_solver]|].
    exists nq. split; [by rewrite <- (load_node_nodes st s)|].
    intros Hnull. rewrite Hnull in Hd. intros b Hb Hin.
    apply (Hd b Hb). set_solver. }
  assert (Hcf : conforming (fcn nd)).
  { destruct node as [|a]; [done|]. by apply (Hconf a). }
  apply Hcf in Hf as [Hdom Hret].
  apply release_inputs_inv in Hr as [Hn2 Hb]. simpl in Hn2, Hb.
  split.
  - intros b Hin. apply elem_of_dom. destruct (Hb b) as [_ ->].
    + apply elem_of_dom. set_solver.
    + intros (i & Hi & Ht). unfold temporary in Ht.
      destruct (Hres i Hi) as (q & ri & Hq & Hri & nq & Hnq & Hfresh).
      rewrite Hq in Ht. simpl in Ht.
      rewrite (load_node_nodes st (set_mem st1 h)) in Ht by done.
      rewrite Hnq in Ht. simpl in Ht.
      destruct (data nq) eqn:Hd; [|done].
      rewrite Hri in Ht. simpl in Ht. destruct ri as [|b']; [done|].
      injection Ht as ->. by apply (Hfresh eq_refl b).
  - exists nd. split; [done|]. destruct (data nd); [|done].
    intros b Hrb Hin. apply (Hret b Hrb). set_solver.
Qed.

(** * The claims *)

(** ** Leaves *)

(** C5. A node without inputs whose operation is [input_fcn] evaluates to
    its own [data] pointer: the very same buffer, not a copy, and the
    whole state, memory included, is as before the call. *)
Theorem input_leaf_identity fuel st node nd :
  load_node st node = Some nd →
  input_count nd = 0%Z →
  fcn nd = input_fcn →
  run_node (S fuel) node st = Ok (data nd, st).
Proof.
  intros Hnd Hcount Hop. apply run_node_unfold.
  exists nd, [], st, (mem st). rewrite Hop, Hcount, set_mem_id.
  repeat split; [done| | ].
  - unfold collect_inputs. by rewrite Hcount.
  - unfold release_inputs. by rewrite Hcount.
Qed.

Lemma input_leaf_identity_witness :
  run_node 1 (Ptr 1) Sample.st0 = Ok (Ptr 11, Sample.st0).
Proof.
  apply (input_leaf_identity 0 Sample.st0 (Ptr 1) (Sample.leaf (Ptr 11)));
    reflexivity.
Defined.

(** ** A null result *)

(** C2, as the specification has it, fails: node 6 of the sample graph has
    no data, its operation returns [NULL], and the evaluation returns that
    [NULL] as an ordinary result.  The statement that holds in its place
    is [null_result_returned], proved with the ownership protocol at the
    end of the file. *)
Lemma null_result_is_not_an_error :
  load_node Sample.st0 (Ptr 6) = Some (Sample.leaf NULL) ∧
  data (Sample.leaf NULL) = NULL ∧
  fcn (Sample.leaf NULL) [] [] 0%Z NULL (mem Sample.st0)
    = Some (NULL, mem Sample.st0) ∧
  run_node 1 (Ptr 6) Sample.st0 = Ok (NULL, Sample.st0).
Proof. repeat split. Qed.

(** ** Frame *)

(** C9. A call of [run_node] that returns leaves the store of node
    structures exactly as it found it: the same nodes at the same
    addresses, each with the same [inputs], [input_sizes], [input_count],
    [fcn] and [data] pointer.  What changes is in [mem] only, and there
    the evaluator itself writes nothing: after the call every live buffer
    holds what the operation of the node left in it. *)
Theorem run_node_frame fuel node st r st' :
  run_node fuel node st = Ok (r, st') →
  nodes st' = nodes st ∧
  dom (nodes st') = dom (nodes st) ∧
  (∀ a nd, nodes st !! a = Some nd →
     ∃ nd', nodes st' !! a = Some nd' ∧
       inputs nd' = inputs nd ∧ input_sizes nd' = input_sizes nd ∧
       input_count nd' = input_count nd ∧ fcn nd' = fcn nd ∧
       data nd' = data nd) ∧
  ∃ fuel' nd rs st1 h,
    fuel = S fuel' ∧
    load_node st node = Some nd ∧
    collect_inputs (run_node fuel') nd st = Ok (rs, st1) ∧
    fcn nd rs (input_sizes nd) (input_count nd) (data nd) (mem st1)
      = Some (r, h) ∧
    mem st' ⊆ h.
Proof.
  intros Hrun. apply run_node_nodes in Hrun as Hn. destruct Hn as [Hn _].
  rewrite Hn. split_and!; [done..| |].
  - intros a nd Ha. by exists nd.
  - destruct fuel as [|fuel']; [done|].
    apply run_node_unfold in Hrun as (nd & rs & st1 & h & Hnd & Hc & Hf & Hr).
    exists fuel', nd, rs, st1, h. split_and!; [done..|].
    by apply release_inputs_sub in Hr.
Qed.

Lemma run_node_frame_witness :
  nodes Sample.st3 = nodes Sample.st0 ∧
  dom (nodes Sample.st3) = dom (nodes Sample.st0) ∧
  (∀ a nd, nodes Sample.st0 !! a = Some nd →
     ∃ nd', nodes Sample.st3 !! a = Some nd' ∧
       inputs nd' = inputs nd ∧ input_sizes nd' = input_sizes nd ∧
       input_count nd' = input_count nd ∧ fcn nd' = fcn nd ∧
       data nd' = data nd) ∧
  ∃ fuel' nd rs st1 h,
    2 = S fuel' ∧
    load_node Sample.st0 (Ptr 3) = Some nd ∧
    collect_inputs (run_node fuel') nd Sample.st0 = Ok (rs, st1) ∧
    fcn nd rs (input_sizes nd) (input_count nd) (data nd) (mem st1)
      = Some (Ptr 13, h) ∧
    mem Sample.st3 ⊆ h.
Proof.
  apply (run_node_frame 2 (Ptr 3) Sample.st0 (Ptr 13) Sample.st3).
  vm_compute. reflexivity.
Defined.

(** ** Termination *)

Lemma outcome_bind_fuel {A B} (m : outcome A) (k : A → outcome B) :
  m ≠ OutOfFuel → (∀ a, m = Ok a → k a ≠ OutOfFuel) →
  m ≫= k ≠ OutOfFuel.
Proof. destruct m as [a| |]; simpl; [|done..]. intros _ Hk. by apply Hk. Qed.

Lemma lift_fuel {A} (o : option A) : lift o ≠ OutOfFuel.
Proof. by destruct o. Qed.

Lemma release_inputs_fuel nd rs st : release_inputs nd rs st ≠ OutOfFuel.
Proof.
  unfold release_inputs, for_upto.
  apply (for_loop_fuel (λ _ _, True)); [done|].
  intros i s _ _. split; [|done].
  apply outcome_bind_fuel; [apply lift_fuel|]. intros q _.
  apply outcome_bind_fuel; [apply lift_fuel|]. intros nq _.
  destruct (data nq); [|done].
  apply outcome_bind_fuel; [apply lift_fuel|]. intros r _.
  apply outcome_bind_fuel; [apply lift_fuel|]. done.
Qed.

Lemma run_node_fuel d fuel node st :
  depth_le (nodes st) d node = true → d ≤ fuel →
  run_node fuel node st ≠ OutOfFuel.
Proof.
  revert fuel node st. induction d as [|d IH]; [done|].
  intros [|fuel] node st Hd Hfuel; [lia|]. simpl.
  destruct node as [|a]; [done|]. simpl in Hd |- *.
  destruct (nodes st !! a) as [nd|] eqn:Hnd; [simpl|done].
  apply outcome_bind_fuel.
  - unfold collect_inputs, for_upto.
    apply (for_loop_fuel (λ _ s, nodes s.2 = nodes st)); [done|].
    intros i [rs s] Hi Hs. simpl in Hs.
    destruct (index (inputs nd) i) as [q|] eqn:Hq; [simpl|done].
    assert (Hdq : depth_le (nodes s) d q = true).
    { rewrite Hs. apply index_Some in Hq as [? Hq].
      apply (proj1 (forallb_forall _ _) Hd), list_elem_of_In.
      apply (list_elem_of_lookup_2 _ (Z.to_nat i)).
      rewrite lookup_take_lt; [done|lia]. }
    split.
    + apply outcome_bind_fuel; [apply IH; [done|lia]|]. by intros [r s'] _.
    + intros [rs' s'] Hbody.
      destruct (run_node fuel q s) as [[r s2]| |] eqn:Hr; [|done..].
      injection Hbody as <- <-. simpl.
      apply run_node_nodes in Hr as [-> _]. done.
  - intros [rs st1] _.
    apply outcome_bind_fuel; [apply lift_fuel|]. intros [r h] _.
    apply outcome_bind_fuel; [apply release_inputs_fuel|]. done.
Qed.

(** Past the point where it stops answering [OutOfFuel], a larger bound
    does not change what [run_node] answers. *)
Lemma for_loop_ext {S} (body1 body2 : Z → S → outcome S) count i0 s0 :
  (∀ i s, body1 i s ≠ OutOfFuel → body2 i s = body1 i s) →
  for_loop count i0 body1 s0 ≠ OutOfFuel →
  for_loop count i0 body2 s0 = for_loop count i0 body1 s0.
Proof.
  intros Hext. revert i0 s0. induction count as [|c IH]; intros i0 s0 Hrun;
    [done|].
  simpl in *. destruct (body1 i0 s0) as [s1| |] eqn:Hb; [| |done].
  - rewrite Hext, Hb by (by rewrite Hb). simpl. by apply IH.
  - by rewrite Hext, Hb by (by rewrite Hb).
Qed.

Lemma run_node_S fuel node st :
  run_node (S fuel) node st =
    nd ← lift (load_node st node);
    '(input_results, st) ← collect_inputs (run_node fuel) nd st;
    '(result, h) ← lift (fcn nd input_results (input_sizes nd)
                           (input_count nd) (data nd) (mem st));
    st ← release_inputs nd input_results (set_mem st h);
    Ok (result, st).
Proof. reflexivity. Qed.

Arguments run_node : simpl never.

Lemma run_node_fuel_S fuel node st :
  run_node fuel node st ≠ OutOfFuel →
  run_node (S fuel) node st = run_node fuel node st.
Proof.
  revert node st. induction fuel as [|fuel IH]; [done|].
  intros node st Hrun.
  rewrite (run_node_S (S fuel)). rewrite (run_node_S fuel) in Hrun |- *.
  destruct (load_node st node) as [nd|]; [simpl in *|done].
  assert (Hc : collect_inputs (run_node (S fuel)) nd st
               = collect_inputs (run_node fuel) nd st).
  { unfold collect_inputs, for_upto. apply for_loop_ext.
    - intros i [rs s] Hb.
      destruct (index (inputs nd) i) as [q|]; [simpl in *|done].
      rewrite IH; [done|]. intros Hq. by rewrite Hq in Hb.
    - intros Hc. unfold collect_inputs, for_upto in Hrun.
      by rewrite Hc in Hrun. }
  by rewrite Hc.
Qed.

Lemma run_node_fuel_le d fuel node st :
  run_node d node st ≠ OutOfFuel → d ≤ fuel →
  run_node fuel node st = run_node d node st.
Proof.
  intros Hd Hle. induction Hle as [|fuel Hle IH]; [done|].
  rewrite run_node_fuel_S; [done|]. by rewrite IH.
Qed.

(** A graph is without cycles when its nodes can be ranked so that every
    input of a node ranks below it; the depth is then at most the rank of
    the root plus one. *)
Lemma ranked_depth_le (ns : gmap loc Node) (rank : loc → nat) :
  (∀ a nd q, ns !! a = Some nd →
     q ∈ take (Z.to_nat (input_count nd)) (inputs nd) →
     ∃ b, q = Ptr b ∧ is_Some (ns !! b) ∧ rank b < rank a) →
  ∀ a, is_Some (ns !! a) → depth_le ns (S (rank a)) (Ptr a) = true.
Proof.
  intros Hrank.
  assert (Hd : ∀ d a, rank a < d → is_Some (ns !! a) →
                      depth_le ns d (Ptr a) = true).
  { induction d as [|d IH]; intros a Ha [nd Hnd]; [lia|]. simpl.
    rewrite Hnd. apply forallb_forall. intros q Hq.
    apply list_elem_of_In in Hq.
    destruct (Hrank a nd q Hnd Hq) as (b & -> & Hb & Hlt).
    apply IH; [lia|done]. }
  intros a. apply Hd. lia.
Qed.

(** C8. On a graph without cycles [run_node] terminates, and the depth of
    its recursion is bounded by the depth of the graph: when no path from
    [node] has more than [d] nodes, [d] nested calls are enough for an
    answer (a result or a fault), and any larger bound gives the same
    answer. *)
Theorem run_node_terminates d fuel node st :
  depth_le (nodes st) d node = true →
  d ≤ fuel →
  run_node fuel node st ≠ OutOfFuel ∧
  run_node fuel node st = run_node d node st.
Proof.
  intros Hd Hle.
  assert (Hne : run_node d node st ≠ OutOfFuel)
    by (by apply (run_node_fuel d)).
  split; [by apply (run_node_fuel d)|by apply run_node_fuel_le].
Qed.

Lemma run_node_terminates_witness :
  run_node 7 (Ptr 5) Sample.st0 ≠ OutOfFuel ∧
  run_node 7 (Ptr 5) Sample.st0 = run_node 3 (Ptr 5) Sample.st0.
Proof.
  apply (run_node_terminates 3 7 (Ptr 5) Sample.st0); [reflexivity|lia].
Defined.

(** On a cycle every bound is hit: the hypothesis of the theorem cannot
    be dropped. *)
Lemma self_loop_diverges fuel : run_node fuel (Ptr 1) self_loop = OutOfFuel.
Proof.
  induction fuel as [|fuel IH]; [done|].
  rewrite run_node_S.
  change (load_node self_loop (Ptr 1))
    with (Some (Sample.unary input_fcn 1 11)).
  simpl. unfold collect_inputs, for_upto. simpl. unfold Pos.to_nat. simpl.
  by rewrite IH.
Qed.

(** ** Graphs made of library operations *)

Section BuiltinGraphs.
Variables (sin cosh : float → float).

Lemma run_node_builtin fuel node st r st' :
  all_builtin sin cosh st →
  run_node fuel node st = Ok (r, st') →
  ∃ nd, load_node st node = Some nd ∧ r = data nd ∧
    dom (mem st') = dom (mem st) ∧
    ∃ fuel' rs st1,
      fuel = S fuel' ∧
      collect_inputs (run_node fuel') nd st = Ok (rs, st1) ∧
      fcn nd rs (input_sizes nd) (input_count nd) (data nd) (mem st1)
        = Some (r, mem st') ∧
      ∀ i, (0 ≤ i < input_count nd)%Z →
        ∃ q nq, index (inputs nd) i = Some q ∧ load_node st q = Some nq ∧
                index rs i = Some (data nq).
Proof.
  revert node st r st'. induction fuel as [|fuel IH]; [done|].
  intros node st r st' Hall Hrun.
  apply run_node_unfold in Hrun as (nd & rs & st1 & h & Hnd & Hc & Hf & Hr).
  destruct (collect_inputs_inv (run_node fuel)
    (λ s, nodes s = nodes st ∧ dom (mem s) = dom (mem st))
    (λ q r, ∃ nq, load_node st q = Some nq ∧ r = data nq)
    nd st rs st1) as ([Hn1 Hdom1] & Hlen & Hres); [|done|done|].
  { intros q s r0 s' [Hn Hs] Hq.
    apply run_node_nodes in Hq as Hq'. destruct Hq' as [Hn' _].
    apply IH in Hq as (nq & Hnq & -> & Hs' & _).
    2:{ intros a' nd' Ha'. apply (Hall a'). by rewrite <- Hn. }
    split; [split; congruence|].
    exists nq. split; [by rewrite <- (load_node_nodes st s)|done]. }
  assert (Hb : builtin sin cosh (fcn nd)).
  { destruct node as [|a]; [done|]. by apply (Hall a). }
  destruct (builtin_returns_data _ _ _ _ _ _ _ _ _ _ Hb Hf) as [-> Hdom2].
  apply release_inputs_inv in Hr as [Hn2 Hrel]. simpl in Hn2, Hrel.
  assert (Hmem : mem st' = h).
  { apply map_eq. intros b. apply Hrel. intros (i & Hi & Ht).
    destruct (Hres i Hi) as (q & ri & Hq & Hri & nq & Hnq & ->).
    unfold temporary in Ht. rewrite Hq in Ht. simpl in Ht.
    rewrite (load_node_nodes st (set_mem st1 h)) in Ht by done.
    rewrite Hnq in Ht. simpl in Ht.
    destruct (data nq) eqn:Hd; [|done].
    rewrite Hri in Ht. done. }
  exists nd. repeat split; [done|congruence|].
  exists fuel, rs, st1. rewrite Hmem. repeat split; [done..|].
  intros i Hi. destruct (Hres i Hi) as (q & ri & Hq & Hri & nq & Hnq & ->).
  by exists q, nq.
Qed.

(** C10. Each operation of library.c returns its [data] argument and
    leaves the set of live buffers as it was.  Hence, in a graph whose
    nodes all use these operations, a call of [run_node] that returns
    - returns the [data] pointer of the node, so [NULL] when the node has
      no data;
    - has stored in [input_results[i]] the [data] pointer of input [i], so
      that the second loop calls [free] on [NULL] only and the memory
      after the call is the memory the operation left;
    - leaves the set of live buffers as it was: no buffer was allocated. *)
Theorem builtin_graph_returns_data :
  (∀ f lists sizes k d (h : heap) r h',
     builtin sin cosh f → f lists sizes k d h = Some (r, h') →
     r = d ∧ dom h' = dom h) ∧
  (∀ fuel node st r st',
     all_builtin sin cosh st →
     run_node fuel node st = Ok (r, st') →
     ∃ nd, load_node st node = Some nd ∧ r = data nd ∧
       (data nd = NULL → r = NULL) ∧
       dom (mem st') = dom (mem st) ∧
       ∃ fuel' rs st1,
         fuel = S fuel' ∧
         collect_inputs (run_node fuel') nd st = Ok (rs, st1) ∧
         fcn nd rs (input_sizes nd) (input_count nd) (data nd) (mem st1)
           = Some (r, mem st') ∧
         (∀ i, (0 ≤ i < input_count nd)%Z →
            ∃ q nq, index (inputs nd) i = Some q ∧
                    load_node st q = Some nq ∧
                    index rs i = Some (data nq) ∧
                    (data nq = NULL → index rs i = Some NULL)) ∧
         (∀ b, ¬ released st nd rs b)).
Proof.
  split; [apply builtin_returns_data|].
  intros fuel node st r st' Hall Hrun.
  destruct (run_node_builtin _ _ _ _ _ Hall Hrun)
    as (nd & Hnd & -> & Hdom & fuel' & rs & st1 & -> & Hc & Hf & Hres).
  exists nd. repeat split; [done..|].
  exists fuel', rs, st1. repeat split; [done..| |].
  - intros i Hi. destruct (Hres i Hi) as (q & nq & Hq & Hnq & Hri).
    exists q, nq. repeat split; [done..|]. intros Hd. by rewrite <- Hd.
  - intros b (i & Hi & Ht).
    destruct (Hres i Hi) as (q & nq & Hq & Hnq & Hri).
    unfold temporary in Ht. rewrite Hq in Ht. simpl in Ht.
    rewrite Hnq in Ht. simpl in Ht.
    destruct (data nq) eqn:Hd; [|done]. by rewrite Hri in Ht.
Qed.

End BuiltinGraphs.

Lemma sample_all_builtin : all_builtin Sample.sin3 Sample.cosh3 Sample.st0.
Proof.
  intros a nd Ha. unfold builtin.
  assert (Hin : nd ∈ [Sample.leaf (Ptr 11); Sample.leaf (Ptr 12);
                      Sample.unary (sin_fcn Sample.sin3) 1 13;
                      Sample.unary (cosh_fcn Sample.cosh3) 2 14;
                      Sample.sum_node; Sample.leaf NULL]).
  { change (nodes Sample.st0) with Sample.graph in Ha.
    unfold Sample.graph in Ha.
    apply elem_of_list_to_map_2 in Ha.
    apply (list_elem_of_fmap_2 snd) in Ha. exact Ha. }
  repeat (apply elem_of_cons in Hin as [->|Hin]); simpl; auto 10.
  by apply elem_of_nil in Hin.
Qed.

Lemma builtin_graph_returns_data_witness :
  ∃ nd, load_node Sample.st0 (Ptr 3) = Some nd ∧ Ptr 13 = data nd ∧
    (data nd = NULL → Ptr 13 = NULL) ∧
    dom (mem Sample.st3) = dom (mem Sample.st0) ∧
    ∃ fuel' rs st1,
      2 = S fuel' ∧
      collect_inputs (run_node fuel') nd Sample.st0 = Ok (rs, st1) ∧
      fcn nd rs (input_sizes nd) (input_count nd) (data nd) (mem st1)
        = Some (Ptr 13, mem Sample.st3) ∧
      (∀ i, (0 ≤ i < input_count nd)%Z →
         ∃ q nq, index (inputs nd) i = Some q ∧
                 load_node Sample.st0 q = Some nq ∧
                 index rs i = Some (data nq) ∧
                 (data nq = NULL → index rs i = Some NULL)) ∧
      (∀ b, ¬ released Sample.st0 nd rs b).
Proof.
  apply (proj2 (builtin_graph_returns_data Sample.sin3 Sample.cosh3)
           2 (Ptr 3) Sample.st0 (Ptr 13) Sample.st3).
  - apply sample_all_builtin.
  - vm_compute. reflexivity.
Defined.

(** ** The release policy *)

(** C1. Take a node with at least one input and a call of [run_node] on
    it that returns.  After the operation of the node has run, the call
    frees the buffers stored in [input_results[i]] for the inputs [i]
    whose node has a null [data] field, and no other: a buffer is dead
    after the call exactly when it is one of these, and every other buffer
    is as the operation left it.  Moreover, when the operations of the
    graph keep to their contract (they return [data] if it is not [NULL],
    and [NULL] or a fresh buffer otherwise), no buffer that was live
    before the call is freed by it; in particular the buffer of every
    node with a non-null [data] field is still live after the call. *)
Theorem release_policy fuel node st nd r st' :
  load_node st node = Some nd →
  (0 < input_count nd)%Z →
  run_node (S fuel) node st = Ok (r, st') →
  (∃ rs st1 h,
     collect_inputs (run_node fuel) nd st = Ok (rs, st1) ∧
     fcn nd rs (input_sizes nd) (input_count nd) (data nd) (mem st1)
       = Some (r, h) ∧
     ∀ b,
       (released st nd rs b ↔
          ∃ i q nq, (0 ≤ i < input_count nd)%Z ∧
            index (inputs nd) i = Some q ∧ load_node st q = Some nq ∧
            data nq = NULL ∧ index rs i = Some (Ptr b)) ∧
       (released st nd rs b → mem st' !! b = None) ∧
       (¬ released st nd rs b → mem st' !! b = h !! b)) ∧
  ((∀ a n, nodes st !! a = Some n → conforming (fcn n)) →
   ∀ a nq b, nodes st !! a = Some nq → data nq = Ptr b →
     is_Some (mem st !! b) → is_Some (mem st' !! b)).
Proof.
  intros Hnd Hpos Hrun. split.
  - apply run_node_unfold in Hrun as (nd' & rs & st1 & h & Hnd' & Hc & Hf & Hr).
    assert (nd' = nd) as -> by congruence.
    exists rs, st1, h. repeat split; [done..| | | |].
    + intros (i & Hi & Ht). unfold temporary in Ht.
      destruct (index (inputs nd) i) as [q|] eqn:Hq; [simpl in Ht|done].
      destruct (load_node st q) as [nq|] eqn:Hnq; [simpl in Ht|done].
      destruct (data nq) eqn:Hd; [|done].
      destruct (index rs i) as [[|b']|] eqn:Hri; simplify_eq/=.
      by exists i, q, nq.
    + intros (i & q & nq & Hi & Hq & Hnq & Hd & Hri). exists i.
      split; [done|]. unfold temporary. rewrite Hq. simpl.
      rewrite Hnq. simpl. by rewrite Hd, Hri.
    + destruct (collect_inputs_inv (run_node fuel)
        (λ s, nodes s = nodes st) (λ _ _, True) nd st rs st1)
        as (Hn1 & _); [|done|done|].
      { intros q s r0 s' Hs Hq. apply run_node_nodes in Hq as [-> _].
        by split. }
      apply release_inputs_inv in Hr as [_ Hb]. intros (i & Hi & Ht).
      apply Hb. exists i. split; [done|].
      by rewrite (temporary_nodes st (set_mem st1 h)).
    + destruct (collect_inputs_inv (run_node fuel)
        (λ s, nodes s = nodes st) (λ _ _, True) nd st rs st1)
        as (Hn1 & _); [|done|done|].
      { intros q s r0 s' Hs Hq. apply run_node_nodes in Hq as [-> _].
        by split. }
      apply release_inputs_inv in Hr as [_ Hb]. intros Hnot.
      apply Hb. intros (i & Hi & Ht). apply Hnot. exists i. split; [done|].
      by rewrite <- (temporary_nodes st (set_mem st1 h)).
  - intros Hconf a nq b _ _ Hlive.
    apply (run_node_keeps_live _ _ _ _ _ Hconf) in Hrun as [Hsub _].
    apply elem_of_dom. apply elem_of_dom in Hlive. set_solver.
Qed.

(** The contract is met by the operations of library.c. *)
Lemma sample_conforming :
  ∀ a n, nodes Sample.st0 !! a = Some n → conforming (fcn n).
Proof.
  intros a n Ha. apply (builtin_conforming Sample.sin3 Sample.cosh3).
  by apply (sample_all_builtin a).
Qed.

Lemma copy_fcn_conforming : conforming Temporary.copy_fcn.
Proof.
  intros lists sizes k d h r h' Hf. unfold Temporary.copy_fcn in Hf.
  destruct d as [|a]; [|by injection Hf as <- <-].
  destruct (index lists 0) as [input|]; [simpl in Hf|done].
  destruct (index sizes 0) as [size|]; [simpl in Hf|done].
  destruct input as [|b]; [done|].
  destruct (h !! b) as [l|]; [simpl in Hf|done].
  injection Hf as <- <-.
  split; [rewrite dom_insert_L; set_solver|].
  intros b' [= <-]. apply is_fresh.
Qed.

Lemma temporary_graph_conforming :
  ∀ a n, nodes Temporary.st0 !! a = Some n → conforming (fcn n).
Proof.
  intros a n Ha. simpl in Ha.
  apply lookup_insert_Some in Ha as [[_ <-]|[_ Ha]];
    [apply copy_fcn_conforming|].
  apply lookup_insert_Some in Ha as [[_ <-]|[_ Ha]].
  - apply (builtin_conforming Sample.sin3 Sample.cosh3). unfold builtin.
    simpl. auto 10.
  - by apply (sample_conforming a).
Qed.

Lemma release_policy_witness :
  (∃ rs st1 h,
     collect_inputs (run_node 2) Temporary.sin_node Temporary.st0
       = Ok (rs, st1) ∧
     sin_fcn Sample.sin3 rs [2%Z] 1%Z (Ptr 16) (mem st1) = Some (Ptr 16, h) ∧
     ∀ b,
       (released Temporary.st0 Temporary.sin_node rs b ↔
          ∃ i q nq, (0 ≤ i < 1)%Z ∧
            index [Ptr 7] i = Some q ∧ load_node Temporary.st0 q = Some nq ∧
            data nq = NULL ∧ index rs i = Some (Ptr b)) ∧
       (released Temporary.st0 Temporary.sin_node rs b →
          mem Temporary.st8 !! b = None) ∧
       (¬ released Temporary.st0 Temporary.sin_node rs b →
          mem Temporary.st8 !! b = h !! b)) ∧
  (∀ a nq b, nodes Temporary.st0 !! a = Some nq → data nq = Ptr b →
     is_Some (mem Temporary.st0 !! b) → is_Some (mem Temporary.st8 !! b)).
Proof.
  assert (Hrun : run_node 3 (Ptr 8) Temporary.st0
                 = Ok (Ptr 16, Temporary.st8)) by (vm_compute; reflexivity).
  destruct (release_policy 2 (Ptr 8) Temporary.st0 Temporary.sin_node
              (Ptr 16) Temporary.st8 eq_refl eq_refl Hrun) as [Ha Hb].
  exact (conj Ha (Hb temporary_graph_conforming)).
Defined.

(** In that run the temporary, buffer 17, is live when the sine is
    computed and dead afterwards, while the buffers of the nodes are
    live. *)
Example temporary_released :
  run_node 2 (Ptr 7) Temporary.st0 = Ok (Ptr 17, Temporary.st7) ∧
  run_node 3 (Ptr 8) Temporary.st0 = Ok (Ptr 16, Temporary.st8) ∧
  released Temporary.st0 Temporary.sin_node [Ptr 17] 17%positive ∧
  mem Temporary.st8 !! 17%positive = None ∧
  mem Temporary.st8 !! 11%positive = Some [0.5; -1]%float.
Proof.
  split_and!; try (vm_compute; reflexivity).
  exists 0%Z. split; [simpl; lia|]. vm_compute. reflexivity.
Qed.

(** The contract cannot be dropped from the second half.  In the graph
    [sin(first(a))] the node [first(a)] has no data and returns the buffer
    of the leaf [a]; the call on its consumer frees that buffer, which the
    leaf still points to. *)
Example borrowed_buffer_released :
  run_node 3 (Ptr 10) Borrowed.st0 = Ok (Ptr 16, Borrowed.st10) ∧
  load_node Borrowed.st10 (Ptr 1) = Some (Sample.leaf (Ptr 11)) ∧
  mem Borrowed.st0 !! 11%positive = Some [0.5; -1]%float ∧
  mem Borrowed.st10 !! 11%positive = None.
Proof. split_and!; vm_compute; reflexivity. Qed.

(** ** The operations *)

Lemma temporary_Some st nd rs i b :
  temporary st nd rs i = Some b ↔
  ∃ q nq, index (inputs nd) i = Some q ∧ load_node st q = Some nq ∧
          data nq = NULL ∧ index rs i = Some (Ptr b).
Proof.
  unfold temporary. split.
  - destruct (index (inputs nd) i) as [q|] eqn:Hq; [simpl|done].
    destruct (load_node st q) as [nq|] eqn:Hnq; [simpl|done].
    destruct (data nq) eqn:Hd; [|done].
    destruct (index rs i) as [[|b']|] eqn:Hr; simpl; intros Ht;
      [done| |done].
    injection Ht as ->. by exists q, nq.
  - intros (q & nq & -> & Hnq & Hd & Hr). simpl. rewrite Hnq. simpl.
    by rewrite Hd, Hr.
Qed.

Lemma accum_row_lookup_ge f size acc l j :
  size ≤ j → accum_row f size acc l !! j = acc !! j.
Proof.
  revert acc l j. induction size as [|n IH]; intros [|a acc] [|x l] j Hj;
    simpl; try done.
  destruct j as [|j]; [lia|]. simpl. apply IH. lia.
Qed.

Lemma accumulate_lookup_ge f size acc ls j :
  size ≤ j → accumulate f size acc ls !! j = acc !! j.
Proof.
  unfold accumulate. intros Hj. revert acc.
  induction ls as [|l ls IH]; intros acc; simpl; [done|].
  by rewrite IH, accum_row_lookup_ge.
Qed.

(** C3. A node whose operation is [sum_fcn], with [k] inputs whose result
    buffers have [n] cells each, and whose own buffer [data] holds [n]
    zeros when the operation starts, evaluates to [data], and cell [j] of
    it then holds the sum of cell [j] of the inputs: the inputs are added
    in order, starting from zero, in binary64 arithmetic.  The buffer of
    the node is its own (no input evaluates to it), and the inputs that
    are temporaries evaluate to distinct buffers. *)
Theorem sum_node_correct fuel node st nd d (k n : nat) rs ls st1 :
  load_node st node = Some nd →
  fcn nd = sum_fcn →
  data nd = Ptr d →
  input_count nd = Z.of_nat k →
  index (input_sizes nd) 0 = Some (Z.of_nat n) →
  collect_inputs (run_node fuel) nd st = Ok (rs, st1) →
  Forall2 (input_buffer (mem st1) d n) rs ls →
  Forall (λ l, length l = n) ls →
  mem st1 !! d = Some (replicate n 0%float) →
  (∀ i j b, (0 ≤ i < input_count nd)%Z → (0 ≤ j < input_count nd)%Z →
     temporary st nd rs i = Some b → temporary st nd rs j = Some b → i = j) →
  ∃ st' out,
    run_node (S fuel) node st = Ok (Ptr d, st') ∧
    length ls = k ∧
    mem st' !! d = Some out ∧
    length out = n ∧
    ∀ j, j < n →
      out !! j = Some (foldl PrimFloat.add 0%float (column j ls)).
Proof.
  intros Hnd Hop Hd Hk Hsz Hc Hin Hlen Hzero Hdis.
  destruct (collect_inputs_inv (run_node fuel) (λ _, True) (λ _ _, True)
              nd st rs st1) as (_ & Hrs & _); [done|done|done|].
  assert (Hk' : input_count nd = Z.of_nat (length rs)) by lia.
  set (out := accumulate PrimFloat.add n (replicate n 0%float) ls).
  assert (Hf : fcn nd rs (input_sizes nd) (input_count nd) (data nd)
                 (mem st1) = Some (Ptr d, <[d := out]> (mem st1))).
  { rewrite Hop, Hd, Hk'. apply sum_fcn_spec; [done..| |done].
    by rewrite length_replicate. }
  destruct (run_node_intro fuel node st nd rs st1 (Ptr d)
              (<[d := out]> (mem st1)) Hnd Hc Hf Hdis)
    as (st' & Hrun & _ & Hmem).
  { intros i b Hi Ht. apply temporary_Some in Ht as (q & nq & _ & _ & _ & Hr).
    apply index_Some in Hr as [_ Hr].
    destruct (Forall2_lookup_l _ _ _ _ _ Hin Hr)
      as (l & _ & b' & [= <-] & Hne & Hb & _).
    rewrite lookup_insert_ne by done. by exists l. }
  exists st', out. split_and!; [done| | | |].
  - apply Forall2_length in Hin. lia.
  - destruct (Hmem d) as [_ ->]; [by rewrite lookup_insert_eq|].
    intros (i & Hi & Ht).
    apply temporary_Some in Ht as (q & nq & _ & _ & _ & Hr).
    apply index_Some in Hr as [_ Hr].
    by destruct (Forall2_lookup_l _ _ _ _ _ Hin Hr)
      as (l & _ & b' & [= <-] & Hne & _).
  - unfold out. by rewrite accumulate_length, length_replicate.
  - intros j Hj. apply accumulate_lookup; [done| |].
    + by apply lookup_replicate_2.
    + eapply Forall_impl; [exact Hlen|]. simpl. intros l ->. done.
Qed.

Lemma sum_node_correct_witness :
  ∃ st' out,
    run_node 3 (Ptr 5) Sample.st0 = Ok (Ptr 15, st') ∧
    length [map Sample.sin3 [0.5; -1]%float;
            map Sample.cosh3 [2; 0]%float] = 2 ∧
    mem st' !! 15%positive = Some out ∧
    length out = 2 ∧
    ∀ j, j < 2 →
      out !! j = Some (foldl PrimFloat.add 0%float
                         (column j [map Sample.sin3 [0.5; -1]%float;
                                    map Sample.cosh3 [2; 0]%float])).
Proof.
  apply (sum_node_correct 2 (Ptr 5) Sample.st0 Sample.sum_node 15%positive
           2 2 [Ptr 13; Ptr 14] _ Sample.st4).
  - reflexivity.
  - reflexivity.
  - reflexivity.
  - reflexivity.
  - reflexivity.
  - vm_compute. reflexivity.
  - repeat constructor.
    + exists 13%positive. split_and!; [done|done|vm_compute; reflexivity|].
      simpl. lia.
    + exists 14%positive. split_and!; [done|done|vm_compute; reflexivity|].
      simpl. lia.
  - repeat constructor.
  - vm_compute. reflexivity.
  - intros i j b Hi Hj Ht. simpl in Hi.
    assert (i = 0 ∨ i = 1)%Z as [-> | ->] by lia; vm_compute in Ht;
      discriminate.
Defined.

(** The buffer of the node has to be its own.  Here the second input
    evaluates to the buffer [data] itself, which holds [0.5] by the time
    it is added: the cell ends at [1], not at [0.5 + 0]. *)
Example sum_fcn_aliased_input :
  sum_fcn [Ptr 11; Ptr 15] [1%Z] 2%Z (Ptr 15) Sample.buffers
    = Some (Ptr 15, <[15%positive := [1; 0]%float]> Sample.buffers).
Proof. vm_compute. reflexivity. Qed.

(** C6. A node whose operation is [sin_fcn] (or [cosh_fcn]), with one
    input whose result buffer has [sizes[0]] cells and with a buffer
    [data] of its own of that length, evaluates to [data], and cell [i] of
    it then holds [sin] (or [cosh]) of cell [i] of the input, for every
    [i].  Nothing is asked of the input vector: it may be empty, and the
    values are any doubles.  The input may even share the buffer of the
    node, unless it is a temporary, which the call frees. *)
Theorem unary_node_correct (sin cosh g : float → float)
    fuel node st nd q nq d b x y st1 :
  load_node st node = Some nd →
  (fcn nd = sin_fcn sin ∧ g = sin ∨ fcn nd = cosh_fcn cosh ∧ g = cosh) →
  data nd = Ptr d →
  input_count nd = 1%Z →
  index (inputs nd) 0 = Some q →
  index (input_sizes nd) 0 = Some (Z.of_nat (length x)) →
  load_node st q = Some nq →
  run_node fuel q st = Ok (Ptr b, st1) →
  mem st1 !! b = Some x →
  mem st1 !! d = Some y →
  length y = length x →
  (data nq = NULL → b ≠ d) →
  ∃ st' out,
    run_node (S fuel) node st = Ok (Ptr d, st') ∧
    mem st' !! d = Some out ∧
    length out = length x ∧
    ∀ i xi, x !! i = Some xi → out !! i = Some (g xi).
Proof.
  intros Hnd Hop Hd Hcount Hq Hsz Hnq Hrun Hx Hy Hlen Halias.
  assert (Hc : collect_inputs (run_node fuel) nd st = Ok ([Ptr b], st1)).
  { unfold collect_inputs, for_upto. rewrite Hcount.
    change (Z.to_nat 1) with 1. simpl. rewrite Hq. simpl.
    by rewrite Hrun. }
  assert (Hf : fcn nd [Ptr b] (input_sizes nd) (input_count nd) (data nd)
                 (mem st1) = Some (Ptr d, <[d := map g x]> (mem st1))).
  { rewrite Hd.
    replace (map g x) with (map g (take (length x) x) ++ drop (length x) y).
    2:{ rewrite take_ge, drop_ge by lia. apply app_nil_r. }
    destruct Hop as [[-> ->]|[-> ->]].
    - apply sin_fcn_spec with (b := b); (done || lia).
    - apply cosh_fcn_spec with (b := b); (done || lia). }
  assert (Ht : ∀ i b', (0 ≤ i < input_count nd)%Z →
            temporary st nd [Ptr b] i = Some b' →
            i = 0%Z ∧ b' = b ∧ data nq = NULL).
  { intros i b' Hi Ht. assert (i = 0%Z) as -> by lia.
    apply temporary_Some in Ht as (q' & nq' & Hq' & Hnq' & Hd' & Hr).
    assert (q' = q) as -> by congruence.
    assert (nq' = nq) as -> by congruence.
    injection Hr as ->. done. }
  destruct (run_node_intro fuel node st nd [Ptr b] st1 (Ptr d)
              (<[d := map g x]> (mem st1)) Hnd Hc Hf)
    as (st' & Hrun' & _ & Hmem).
  { intros i j b' Hi Hj _ _. lia. }
  { intros i b' Hi Hi'. apply Ht in Hi' as (_ & -> & _); [|done].
    destruct (decide (b = d)) as [->|Hne].
    - by rewrite lookup_insert_eq.
    - by rewrite lookup_insert_ne, Hx. }
  exists st', (map g x). split_and!; [done| |by rewrite length_map|].
  - destruct (Hmem d) as [_ ->]; [by rewrite lookup_insert_eq|].
    intros (i & Hi & Hi'). apply Ht in Hi' as (_ & -> & Hnull); [|done].
    by apply Halias.
  - intros i xi Hxi. by rewrite list_lookup_fmap, Hxi.
Qed.

Lemma unary_node_correct_witness :
  ∃ st' out,
    run_node 2 (Ptr 4) Sample.st0 = Ok (Ptr 14, st') ∧
    mem st' !! 14%positive = Some out ∧
    length out = length [2; 0]%float ∧
    ∀ i xi, [2; 0]%float !! i = Some xi →
            out !! i = Some (Sample.cosh3 xi).
Proof.
  apply (unary_node_correct Sample.sin3 Sample.cosh3 Sample.cosh3
           1 (Ptr 4) Sample.st0 (Sample.unary (cosh_fcn Sample.cosh3) 2 14)
           (Ptr 2) (Sample.leaf (Ptr 12)) 14%positive 12%positive
           [2; 0]%float [0; 0]%float Sample.st0).
  - reflexivity.
  - right. split; reflexivity.
  - reflexivity.
  - reflexivity.
  - reflexivity.
  - reflexivity.
  - reflexivity.
  - reflexivity.
  - vm_compute. reflexivity.
  - vm_compute. reflexivity.
  - reflexivity.
  - discriminate.
Defined.

(** C7. [product_fcn] on a node with data runs the loop nest of
    [sum_fcn] with [*] for [+]: for each input in order, and each [j]
    below [sizes[0]], [data[j] *= lists[i][j]].  It returns [data]; cell
    [j] of it then holds the product, taken in input order and started
    from the old [data[j]], of cell [j] of the inputs, and the cells from
    [sizes[0]] on are as before.  The buffers of the inputs are not the
    buffer [data]. *)
Theorem product_fcn_correct rs ls sizes d (h : heap) acc (n : nat) :
  index sizes 0 = Some (Z.of_nat n) →
  h !! d = Some acc →
  n ≤ length acc →
  Forall2 (input_buffer h d n) rs ls →
  product_fcn rs sizes (Z.of_nat (length rs)) (Ptr d) h
    = Some (Ptr d, <[d := accumulate PrimFloat.mul n acc ls]> h) ∧
  sum_fcn rs sizes (Z.of_nat (length rs)) (Ptr d) h
    = Some (Ptr d, <[d := accumulate PrimFloat.add n acc ls]> h) ∧
  length (accumulate PrimFloat.mul n acc ls) = length acc ∧
  (∀ j a, j < n → acc !! j = Some a →
     accumulate PrimFloat.mul n acc ls !! j
       = Some (foldl PrimFloat.mul a (column j ls))) ∧
  (∀ j, n ≤ j → accumulate PrimFloat.mul n acc ls !! j = acc !! j).
Proof.
  intros Hsz Hd Hn Hin. split_and!.
  - by apply product_fcn_spec.
  - by apply sum_fcn_spec.
  - apply accumulate_length.
  - intros j a Hj Ha. apply accumulate_lookup; [done..|].
    clear -Hin. induction Hin as [|r l rs ls (b & _ & _ & _ & Hl) _ IH];
      by constructor.
  - intros j Hj. by apply accumulate_lookup_ge.
Qed.

Lemma product_fcn_correct_witness :
  product_fcn [Ptr 11; Ptr 12] [2%Z] (Z.of_nat 2) (Ptr 13)
      (<[13%positive := [3; 1; 7]%float]> Sample.buffers)
    = Some (Ptr 13,
            <[13%positive := accumulate PrimFloat.mul 2 [3; 1; 7]%float
                               [[0.5; -1]%float; [2; 0]%float]]>
              (<[13%positive := [3; 1; 7]%float]> Sample.buffers)) ∧
  sum_fcn [Ptr 11; Ptr 12] [2%Z] (Z.of_nat 2) (Ptr 13)
      (<[13%positive := [3; 1; 7]%float]> Sample.buffers)
    = Some (Ptr 13,
            <[13%positive := accumulate PrimFloat.add 2 [3; 1; 7]%float
                               [[0.5; -1]%float; [2; 0]%float]]>
              (<[13%positive := [3; 1; 7]%float]> Sample.buffers)) ∧
  length (accumulate PrimFloat.mul 2 [3; 1; 7]%float
            [[0.5; -1]%float; [2; 0]%float]) = 3 ∧
  (∀ j a, j < 2 → [3; 1; 7]%float !! j = Some a →
     accumulate PrimFloat.mul 2 [3; 1; 7]%float
         [[0.5; -1]%float; [2; 0]%float] !! j
       = Some (foldl PrimFloat.mul a
                 (column j [[0.5; -1]%float; [2; 0]%float]))) ∧
  (∀ j, 2 ≤ j →
     accumulate PrimFloat.mul 2 [3; 1; 7]%float
         [[0.5; -1]%float; [2; 0]%float] !! j
       = [3; 1; 7]%float !! j).
Proof.
  apply (product_fcn_correct [Ptr 11; Ptr 12]
           [[0.5; -1]%float; [2; 0]%float] [2%Z] 13%positive
           (<[13%positive := [3; 1; 7]%float]> Sample.buffers)
           [3; 1; 7]%float 2).
  - reflexivity.
  - vm_compute. reflexivity.
  - simpl. lia.
  - repeat constructor.
    + exists 11%positive. split_and!; [done|done|vm_compute; reflexivity|].
      simpl. lia.
    + exists 12%positive. split_and!; [done|done|vm_compute; reflexivity|].
      simpl. lia.
Defined.

(** On these buffers the product is [[3 * 0.5 * 2; 1 * -1 * 0; 7]]. *)
Example product_fcn_sample :
  accumulate PrimFloat.mul 2 [3; 1; 7]%float [[0.5; -1]%float; [2; 0]%float]
    = [3; -0; 7]%float.
Proof. reflexivity. Qed.

(** C4. [integration_fcn] on values [lists[0]] and bin edges [lists[1]],
    both of [sizes[0]] cells, adds to [data[0]] the terms
    [0.5 * (v[i] + v[i+1]) * (b[i+1] - b[i])] of the trapezoidal rule, in
    order, and returns [data]; the other cells of [data] are untouched.
    With [data[0]] seeded to [0] the result is the trapezoidal sum, and
    for the values [[0; 1; 0]] on the bins [[0; 1; 2]] it is [1]. *)
Theorem integration_fcn_correct :
  (∀ rs sizes k bv bb d (h : heap) v b a0 rest,
     index rs 0 = Some (Ptr bv) → index rs 1 = Some (Ptr bb) →
     index sizes 0 = Some (Z.of_nat (length v)) →
     length b = length v →
     bv ≠ d → bb ≠ d →
     h !! bv = Some v → h !! bb = Some b →
     h !! d = Some (a0 :: rest) →
     integration_fcn rs sizes k (Ptr d) h
       = Some (Ptr d,
               <[d := foldl PrimFloat.add a0 (trapezoids v b) :: rest]> h) ∧
     ∀ i v0 v1 b0 b1,
       v !! i = Some v0 → v !! S i = Some v1 →
       b !! i = Some b0 → b !! S i = Some b1 →
       trapezoids v b !! i = Some (0.5 * (v0 + v1) * (b1 - b0))%float) ∧
  integration_fcn [Ptr 1; Ptr 2] [3%Z; 3%Z] 2%Z (Ptr 3)
      (list_to_map [(1%positive, [0; 1; 0]%float);
                    (2%positive, [0; 1; 2]%float);
                    (3%positive, [0]%float)])
    = Some (Ptr 3,
            list_to_map [(1%positive, [0; 1; 0]%float);
                         (2%positive, [0; 1; 2]%float);
                         (3%positive, [1]%float)]).
Proof.
  split.
  - intros rs sizes k bv bb d h v b a0 rest Hv Hb Hsz Hlen Hnv Hnb Hhv Hhb Hd.
    split; [by apply (integration_fcn_spec rs sizes k bv bb)|].
    intros i v0 v1 b0 b1. apply trapezoids_lookup.
  - vm_compute. reflexivity.
Qed.

Lemma integration_fcn_correct_witness :
  integration_fcn [Ptr 11; Ptr 12] [2%Z] 2%Z (Ptr 13) Sample.buffers
    = Some (Ptr 13,
            <[13%positive :=
                foldl PrimFloat.add 0%float
                  (trapezoids [0.5; -1]%float [2; 0]%float) :: [0%float]]>
              Sample.buffers) ∧
  ∀ i v0 v1 b0 b1,
    [0.5; -1]%float !! i = Some v0 → [0.5; -1]%float !! S i = Some v1 →
    [2; 0]%float !! i = Some b0 → [2; 0]%float !! S i = Some b1 →
    trapezoids [0.5; -1]%float [2; 0]%float !! i
      = Some (0.5 * (v0 + v1) * (b1 - b0))%float.
Proof.
  apply (proj1 integration_fcn_correct [Ptr 11; Ptr 12] [2%Z] 2%Z
           11%positive 12%positive 13%positive Sample.buffers
           [0.5; -1]%float [2; 0]%float 0%float [0%float]);
    (reflexivity || discriminate || (vm_compute; reflexivity)).
Defined.

(** * Further properties of the evaluator and of the library *)

(** ** Order of evaluation *)

Lemma collect_loop_eval (run : ptr → state → outcome (ptr * state))
    (nd : Node) (c : nat) :
  ∀ (done : list ptr) (st : state),
    length done + c ≤ length (inputs nd) →
    for_loop c (Z.of_nat (length done))
      (λ i '(input_results, st),
         q ← lift (index (inputs nd) i);
         '(r, st) ← run q st;
         Ok (<[Z.to_nat i := r]> input_results, st))
      (done ++ replicate c NULL, st)
    = '(rs, st') ← eval_inputs run
                     (take c (drop (length done) (inputs nd))) st;
      Ok (done ++ rs, st').
Proof.
  induction c as [|c IH]; intros done st Hlen.
  - simpl. by rewrite app_nil_r.
  - destruct (lookup_lt_is_Some_2 (inputs nd) (length done)) as [q Hq];
      [lia|].
    rewrite (drop_S _ _ _ Hq). simpl.
    rewrite index_of_nat, Hq. simpl.
    destruct (run q st) as [[r s]| |]; [simpl|done..].
    rewrite Nat2Z.id.
    replace (<[length done := r]> (done ++ NULL :: replicate c NULL))
      with ((done ++ [r]) ++ replicate c NULL).
    2:{ rewrite insert_app_r_alt, Nat.sub_diag by lia. simpl.
        by rewrite <- app_assoc. }
    replace (Z.of_nat (length done) + 1)%Z
      with (Z.of_nat (length (done ++ [r])))
      by (rewrite length_app; simpl; lia).
    rewrite IH by (rewrite length_app; simpl; lia).
    replace (length (done ++ [r])) with (S (length done))
      by (rewrite length_app; simpl; lia).
    destruct (eval_inputs run _ s) as [[rs s']| |]; [simpl|done..].
    by rewrite <- app_assoc.
Qed.

Lemma collect_inputs_eval (run : ptr → state → outcome (ptr * state))
    nd st :
  Z.to_nat (input_count nd) ≤ length (inputs nd) →
  collect_inputs run nd st
    = eval_inputs run (take (Z.to_nat (input_count nd)) (inputs nd)) st.
Proof.
  intros Hlen. unfold collect_inputs, for_upto.
  pose proof (collect_loop_eval run nd (Z.to_nat (input_count nd)) [] st
                Hlen) as Heq.
  simpl in Heq. change (Z.of_nat 0) with 0%Z in Heq. rewrite Heq.
  by destruct (eval_inputs run _ st) as [[rs s']| |].
Qed.

(** X1. The first loop of [run_node] evaluates the first [input_count]
    inputs of the node once each, from left to right, every one in the
    state left by the one before, and stores the results in the same
    order; it stops at the first input whose evaluation does not
    return. *)
Theorem collect_inputs_in_order (run : ptr → state → outcome (ptr * state))
    nd st :
  Z.to_nat (input_count nd) ≤ length (inputs nd) →
  collect_inputs run nd st
    = eval_inputs run (take (Z.to_nat (input_count nd)) (inputs nd)) st.
Proof. apply collect_inputs_eval. Qed.

Lemma collect_inputs_in_order_witness :
  collect_inputs (run_node 2) Sample.sum_node Sample.st0
    = eval_inputs (run_node 2)
        (take (Z.to_nat (input_count Sample.sum_node))
           (inputs Sample.sum_node)) Sample.st0.
Proof.
  apply (collect_inputs_in_order (run_node 2) Sample.sum_node Sample.st0).
  simpl. lia.
Defined.

(** ** The ownership protocol: no leak, no double free *)

Lemma temporary_ext st nd rs rs' i :
  index rs i = index rs' i → temporary st nd rs i = temporary st nd rs' i.
Proof. intros Hi. unfold temporary. by rewrite Hi. Qed.

Lemma index_insert_ne {A} (l : list A) (i j : Z) (x : A) :
  (0 ≤ i)%Z → (0 ≤ j)%Z → i ≠ j →
  index (<[Z.to_nat i := x]> l) j = index l j.
Proof.
  intros Hi Hj Hne. unfold index. destruct (Z.ltb_spec j 0); [done|].
  apply list_lookup_insert_ne. lia.
Qed.

Lemma builtin_owning sin cosh f : builtin sin cosh f → owning f.
Proof.
  intros Hb lists sizes k d h r h' Hf.
  destruct (builtin_returns_data sin cosh f lists sizes k d h r h' Hb Hf)
    as [-> Hdom].
  by destruct d.
Qed.

Lemma owning_conforming f : owning f → conforming f.
Proof.
  intros Hf lists sizes k d h r h' Hr. apply Hf in Hr.
  destruct d as [|a]; simpl in Hr.
  - destruct r as [|b].
    + split; [by rewrite Hr|]. by intros b.
    + destruct Hr as [Hb Hdom]. split; [rewrite Hdom; set_solver|].
      by intros b' [= <-].
  - destruct Hr as [-> Hdom]. split; [by rewrite Hdom|done].
Qed.

(** The first loop under the protocol: the live buffers after it are the
    ones that were live before it and the temporaries, which are fresh and
    pairwise distinct. *)
Lemma collect_inputs_owned fuel nd st rs st1 :
  (∀ q s r s', nodes s = nodes st → run_node fuel q s = Ok (r, s') →
     ∃ nq, load_node st q = Some nq ∧
           owned_result (data nq) r (mem s) (mem s')) →
  collect_inputs (run_node fuel) nd st = Ok (rs, st1) →
  nodes st1 = nodes st ∧
  (∀ b, b ∈ dom (mem st1) ↔ b ∈ dom (mem st) ∨ released st nd rs b) ∧
  (∀ b, released st nd rs b → b ∉ dom (mem st)) ∧
  (∀ i j b, (0 ≤ i < input_count nd)%Z → (0 ≤ j < input_count nd)%Z →
     temporary st nd rs i = Some b → temporary st nd rs j = Some b → i = j).
Proof.
  intros Hrun Hc. unfold collect_inputs in Hc.
  set (n := input_count nd) in *.
  pose (before := λ (i : Z) (rs : list ptr) (b : loc),
    ∃ j, (0 ≤ j < i)%Z ∧ (j < n)%Z ∧ temporary st nd rs j = Some b).
  pose (P := λ (i : Z) (s : list ptr * state),
    nodes s.2 = nodes st ∧
    length s.1 = Z.to_nat n ∧
    (∀ b, b ∈ dom (mem s.2) ↔ b ∈ dom (mem st) ∨ before i s.1 b) ∧
    (∀ b, before i s.1 b → b ∉ dom (mem st)) ∧
    (∀ j1 j2 b, (0 ≤ j1 < i)%Z → (0 ≤ j2 < i)%Z →
       temporary st nd s.1 j1 = Some b → temporary st nd s.1 j2 = Some b →
       j1 = j2)).
  apply (for_upto_inv P) in Hc.
  - unfold P, before in Hc. simpl in Hc.
    destruct Hc as (Hn & _ & Hdom & Hfresh & Hdis). split_and!; [done| | |].
    + intros b. rewrite Hdom. unfold released. split.
      * intros [?|(j & Hj & Hj' & Ht)]; [by left|right].
        exists j. split; [lia|done].
      * intros [?|(j & Hj & Ht)]; [by left|right].
        exists j. split_and!; [lia..|done].
    + intros b (j & Hj & Ht). apply Hfresh. exists j.
      split_and!; [lia..|done].
    + intros i j b Hi Hj. apply Hdis; lia.
  - unfold P, before. simpl. split_and!; [done|by rewrite length_replicate|..].
    + intros b. split; [by left|]. intros [?|(j & Hj & _)]; [done|lia].
    + intros b (j & Hj & _). lia.
    + intros j1 j2 b Hj1. lia.
  - unfold P. intros i [rs0 s] [rs' s'] Hi (Hn & Hlen & Hdom & Hfresh & Hdis)
      Hbody. simpl in *.
    destruct (index (inputs nd) i) as [q|] eqn:Hq; [simpl in Hbody|done].
    destruct (run_node fuel q s) as [[r s2]| |] eqn:Hr; [simpl in Hbody|done..].
    injection Hbody as <- <-.
    apply run_node_nodes in Hr as Hn2. destruct Hn2 as [Hn2 _].
    destruct (Hrun q s r s2 Hn Hr) as (nq & Hnq & Hown).
    set (rs' := <[Z.to_nat i := r]> rs0).
    assert (Hold : ∀ j, (0 ≤ j < i)%Z →
              temporary st nd rs' j = temporary st nd rs0 j).
    { intros j Hj. apply temporary_ext. apply index_insert_ne; lia. }
    assert (Hnew : temporary st nd rs' i =
              match data nq, r with NULL, Ptr b => Some b | _, _ => None end).
    { unfold temporary. rewrite Hq. simpl. rewrite Hnq. simpl.
      destruct (data nq); [|done].
      assert (index rs' i = Some r) as ->; [|done].
      apply index_Some. split; [lia|]. apply list_lookup_insert_eq. lia. }
    assert (Hstep : ∀ b, before (i + 1)%Z rs' b ↔
              before i rs0 b ∨ temporary st nd rs' i = Some b).
    { intros b. unfold before. split.
      - intros (j & Hj & Hj' & Ht). destruct (decide (j = i)) as [->|Hne].
        + by right.
        + left. exists j. rewrite <- Hold by lia. split_and!; [lia..|done].
      - intros [(j & Hj & Hj' & Ht)|Ht].
        + exists j. rewrite Hold by lia. split_and!; [lia..|done].
        + exists i. split_and!; [lia..|done]. }
    assert (Hgrow : ∀ b, b ∈ dom (mem s2) ↔
              b ∈ dom (mem s) ∨ temporary st nd rs' i = Some b).
    { intros b. rewrite Hnew. unfold owned_result in Hown.
      destruct (data nq) as [|a].
      - destruct r as [|b0].
        + rewrite Hown. naive_solver.
        + destruct Hown as [_ ->]. rewrite elem_of_union, elem_of_singleton.
          naive_solver.
      - destruct Hown as [_ ->]. naive_solver. }
    assert (Hnotin : ∀ b, temporary st nd rs' i = Some b → b ∉ dom (mem s)).
    { intros b. rewrite Hnew. unfold owned_result in Hown.
      destruct (data nq) as [|a]; [|done].
      destruct r as [|b0]; [done|]. destruct Hown as [Hb0 _].
      by intros [= <-]. }
    split_and!.
    + congruence.
    + unfold rs'. by rewrite length_insert.
    + intros b. rewrite Hgrow, Hstep, Hdom. tauto.
    + intros b Hb. apply Hstep in Hb as [Hb|Hb]; [by apply Hfresh|].
      intros Hin. apply (Hnotin b Hb). apply Hdom. by left.
    + intros j1 j2 b Hj1 Hj2 H1 H2.
      destruct (decide (j1 = i)) as [->|Hne1];
        destruct (decide (j2 = i)) as [->|Hne2]; [done| | |].
      * exfalso. apply (Hnotin b H1). apply Hdom. right.
        exists j2. rewrite <- Hold by lia. split_and!; [lia..|done].
      * exfalso. apply (Hnotin b H2). apply Hdom. right.
        exists j1. rewrite <- Hold by lia. split_and!; [lia..|done].
      * apply (Hdis j1 j2 b); [lia..| |]; by rewrite <- Hold by lia.
Qed.

(** A call of [run_node] keeps to the protocol it asks of the
    operations. *)
Lemma run_node_owned fuel node st r st' :
  (∀ a nd, nodes st !! a = Some nd → owning (fcn nd)) →
  run_node fuel node st = Ok (r, st') →
  ∃ nd, load_node st node = Some nd ∧
        owned_result (data nd) r (mem st) (mem st').
Proof.
  revert node st r st'. induction fuel as [|fuel IH]; [done|].
  intros node st r st' Hown Hrun.
  apply run_node_unfold in Hrun as (nd & rs & st1 & h & Hnd & Hc & Hf & Hr).
  destruct (collect_inputs_owned fuel nd st rs st1)
    as (Hn1 & Hdom & Hfresh & _); [|done|].
  { intros q s r0 s' Hn Hq. apply IH in Hq as (nq & Hnq & Hres).
    - exists nq. split; [by rewrite <- (load_node_nodes st s)|done].
    - intros a n Ha. apply (Hown a). by rewrite <- Hn. }
  assert (Hop : owned_result (data nd) r (mem st1) h).
  { destruct node as [|a]; [done|].
    exact (Hown a nd Hnd _ _ _ _ _ _ _ Hf). }
  apply release_inputs_inv in Hr as [_ Hrel]. simpl in Hrel.
  assert (Hiff : ∀ b, released (set_mem st1 h) nd rs b ↔ released st nd rs b).
  { intros b. unfold released.
    by setoid_rewrite (temporary_nodes st (set_mem st1 h)). }
  assert (Hafter : ∀ b, b ∈ dom (mem st') ↔
            b ∈ dom h ∧ ¬ released st nd rs b).
  { intros b. destruct (Hrel b) as [Hb1 Hb2]. rewrite <- Hiff. split.
    - intros Hin. assert (Hnr : ¬ released (set_mem st1 h) nd rs b).
      { intros Hx. apply Hb1 in Hx. apply elem_of_dom in Hin as [l Hl].
        congruence. }
      split; [|done]. apply elem_of_dom. rewrite <- (Hb2 Hnr).
      by apply elem_of_dom.
    - intros [Hin Hnr]. apply elem_of_dom. rewrite (Hb2 Hnr).
      by apply elem_of_dom. }
  exists nd. split; [done|]. unfold owned_result in *.
  destruct (data nd) as [|a].
  - destruct r as [|b0].
    + apply set_eq. intros b. rewrite Hafter, Hop, Hdom. split.
      * intros [[?|?] ?]; [done|tauto].
      * intros Hb. split; [by left|]. intros Hx. by apply (Hfresh b).
    + destruct Hop as [Hb0 Hh]. split.
      * intros Hin. apply Hb0, Hdom. by left.
      * apply set_eq. intros b.
        rewrite Hafter, Hh, !elem_of_union, elem_of_singleton, Hdom. split.
        -- intros [[?|[?|?]] ?]; [by left|by right|tauto].
        -- intros [->|Hb].
           ++ split; [by left|]. intros Hx. apply Hb0, Hdom. by right.
           ++ split; [right; by left|]. intros Hx. by apply (Hfresh b).
  - destruct Hop as [-> Hh]. split; [done|].
    apply set_eq. intros b. rewrite Hafter, Hh, Hdom. split.
    + intros [[?|?] ?]; [done|tauto].
    + intros Hb. split; [by left|]. intros Hx. by apply (Hfresh b).
Qed.

Lemma copy_fcn_owning : owning Temporary.copy_fcn.
Proof.
  intros lists sizes k d h r h' Hf. unfold Temporary.copy_fcn in Hf.
  destruct d as [|a]; [|by injection Hf as <- <-].
  destruct (index lists 0) as [input|]; [simpl in Hf|done].
  destruct (index sizes 0) as [size|]; [simpl in Hf|done].
  destruct input as [|b]; [done|].
  destruct (h !! b) as [l|]; [simpl in Hf|done].
  injection Hf as <- <-. simpl. split; [apply is_fresh|].
  by rewrite dom_insert_L.
Qed.

Lemma temporary_graph_owning :
  ∀ a n, nodes Temporary.st0 !! a = Some n → owning (fcn n).
Proof.
  intros a n Ha. simpl in Ha.
  apply lookup_insert_Some in Ha as [[_ <-]|[_ Ha]];
    [apply copy_fcn_owning|].
  apply lookup_insert_Some in Ha as [[_ <-]|[_ Ha]].
  - apply (builtin_owning Sample.sin3 Sample.cosh3). unfold builtin.
    simpl. auto 10.
  - apply (builtin_owning Sample.sin3 Sample.cosh3).
    by apply (sample_all_builtin a).
Qed.

(** X2. No leak and no lost buffer.  When every operation of the graph
    keeps to the ownership protocol (with data: return it and leave the
    set of live buffers as it is; without: return [NULL], or one fresh
    buffer, the only addition to the set), so does a call of [run_node]
    that returns: every temporary made below the node has been freed, and
    the buffers live after the call are those that were live before it,
    plus the result when the node has no data and the result is not
    [NULL]. *)
Theorem run_node_no_leak fuel node st r st' :
  (∀ a nd, nodes st !! a = Some nd → owning (fcn nd)) →
  run_node fuel node st = Ok (r, st') →
  ∃ nd, load_node st node = Some nd ∧
    match data nd with
    | Ptr _ => r = data nd ∧ dom (mem st') = dom (mem st)
    | NULL =>
        match r with
        | NULL => dom (mem st') = dom (mem st)
        | Ptr b =>
            (b ∉ dom (mem st)) ∧ dom (mem st') = {[b]} ∪ dom (mem st)
        end
    end.
Proof. apply run_node_owned. Qed.

Lemma run_node_no_leak_witness :
  ∃ nd, load_node Temporary.st0 (Ptr 7) = Some nd ∧
    match data nd with
    | Ptr _ => Ptr 17 = data nd ∧
               dom (mem Temporary.st7) = dom (mem Temporary.st0)
    | NULL =>
        match Ptr 17 with
        | NULL => dom (mem Temporary.st7) = dom (mem Temporary.st0)
        | Ptr b => (b ∉ dom (mem Temporary.st0)) ∧
                   dom (mem Temporary.st7) = {[b]} ∪ dom (mem Temporary.st0)
        end
    end.
Proof.
  apply (run_node_no_leak 2 (Ptr 7) Temporary.st0 (Ptr 17) Temporary.st7).
  - apply temporary_graph_owning.
  - vm_compute. reflexivity.
Defined.

(** In the sample run of [sin(copy(a))] the temporary is gone after the
    call on the consumer: the live buffers are those of before. *)
Example no_leak_sample :
  run_node 3 (Ptr 8) Temporary.st0 = Ok (Ptr 16, Temporary.st8) ∧
  dom (mem Temporary.st8) = dom (mem Temporary.st0).
Proof. split; vm_compute; reflexivity. Qed.

(** X3. No double free.  Under the same protocol the second loop of
    [run_node] cannot go wrong: the buffers it hands to [free] are live
    and pairwise distinct, so a call whose inputs have been evaluated and
    whose operation has returned returns too, with the result of the
    operation. *)
Theorem run_node_release_safe fuel node st nd rs st1 r h :
  (∀ a n, nodes st !! a = Some n → owning (fcn n)) →
  load_node st node = Some nd →
  collect_inputs (run_node fuel) nd st = Ok (rs, st1) →
  fcn nd rs (input_sizes nd) (input_count nd) (data nd) (mem st1)
    = Some (r, h) →
  ∃ st', run_node (S fuel) node st = Ok (r, st') ∧
    ∀ b, (released st nd rs b → mem st' !! b = None) ∧
         (¬ released st nd rs b → mem st' !! b = h !! b).
Proof.
  intros Hown Hnd Hc Hf.
  destruct (collect_inputs_owned fuel nd st rs st1)
    as (Hn1 & Hdom & Hfresh & Hdis); [|done|].
  { intros q s r0 s' Hn Hq. apply run_node_owned in Hq as (nq & Hnq & Hres).
    - exists nq. split; [by rewrite <- (load_node_nodes st s)|done].
    - intros a n Ha. apply (Hown a). by rewrite <- Hn. }
  assert (Hop : owned_result (data nd) r (mem st1) h).
  { destruct node as [|a]; [done|].
    exact (Hown a nd Hnd _ _ _ _ _ _ _ Hf). }
  destruct (run_node_intro fuel node st nd rs st1 r h Hnd Hc Hf Hdis)
    as (st' & Hrun & _ & Hmem).
  - intros i b Hi Ht. apply elem_of_dom.
    assert (Hin : b ∈ dom (mem st1)).
    { apply Hdom. right. by exists i. }
    unfold owned_result in Hop. destruct (data nd) as [|a].
    + destruct r as [|b0]; [by rewrite Hop|].
      destruct Hop as [_ ->]. set_solver.
    + destruct Hop as [_ ->]. done.
  - by exists st'.
Qed.

Lemma run_node_release_safe_witness :
  ∃ st', run_node 3 (Ptr 8) Temporary.st0 = Ok (Ptr 16, st') ∧
    ∀ b, (released Temporary.st0 Temporary.sin_node [Ptr 17] b →
            mem st' !! b = None) ∧
         (¬ released Temporary.st0 Temporary.sin_node [Ptr 17] b →
            mem st' !! b
              = <[16%positive := map Sample.sin3 [0.5; -1]%float]>
                  (mem Temporary.st7) !! b).
Proof.
  apply (run_node_release_safe 2 (Ptr 8) Temporary.st0 Temporary.sin_node
           [Ptr 17] Temporary.st7 (Ptr 16)).
  - apply temporary_graph_owning.
  - reflexivity.
  - vm_compute. reflexivity.
  - vm_compute. reflexivity.
Defined.

(** ** Nodes without data *)

Lemma for_upto_stay (body : Z → heap → option heap) n (h h' : heap) :
  (∀ i s s', body i s = Some s' → s' = s) →
  for_upto n body h = Some h' → h' = h.
Proof.
  intros Hbody Hrun.
  apply (for_upto_inv (M := option) (λ _ s, s = h) body n h h');
    [done| |done].
  intros i s s1 _ -> Hb. by apply Hbody in Hb.
Qed.

Lemma for_upto_first_fail (body : Z → heap → option heap) n (h : heap) :
  (0 < n)%Z → body 0%Z h = None → for_upto n body h = None.
Proof.
  intros Hn Hb. unfold for_upto.
  destruct (Z.to_nat n) as [|c] eqn:Hc; [lia|]. simpl. by rewrite Hb.
Qed.

Lemma accum_inner_null f lists i j (h : heap) :
  accum_inner f lists NULL i j h = None.
Proof.
  unfold accum_inner. destruct (index lists i) as [li|]; [simpl|done].
  by destruct (load h li j).
Qed.

Lemma unary_body_null g input i (h : heap) :
  unary_body g input NULL i h = None.
Proof. unfold unary_body. by destruct (load h input i). Qed.

Lemma accum_outer_null f lists size n (h h' : heap) :
  for_upto n (accum_outer f lists NULL size) h = Some h' → h' = h.
Proof.
  apply for_upto_stay. intros i s s'. unfold accum_outer.
  apply for_upto_stay. intros j t t'. by rewrite accum_inner_null.
Qed.

(** X4. An operation of library.c never tests [data]: called with a null
    [data] it either goes wrong, or has had no cell to write; when it
    returns, it returns [NULL] and the memory is exactly as it was. *)
Theorem builtin_null_data_noop (sin cosh : float → float)
    f lists sizes k (h : heap) r h' :
  builtin sin cosh f →
  f lists sizes k NULL h = Some (r, h') →
  r = NULL ∧ h' = h.
Proof.
  intros [->|[->|[->|[->|[->| ->]]]]] Hf.
  - by injection Hf as <- <-.
  - unfold sum_fcn in Hf.
    destruct (index sizes 0) as [size|]; [simpl in Hf|done].
    change (for_upto k _ h) with (for_upto k
      (accum_outer PrimFloat.add lists NULL size) h) in Hf.
    destruct (for_upto k _ h) as [h1|] eqn:Hl; [simpl in Hf|done].
    injection Hf as <- <-. split; [done|]. by apply accum_outer_null in Hl.
  - unfold product_fcn in Hf.
    destruct (index sizes 0) as [size|]; [simpl in Hf|done].
    change (for_upto k _ h) with (for_upto k
      (accum_outer PrimFloat.mul lists NULL size) h) in Hf.
    destruct (for_upto k _ h) as [h1|] eqn:Hl; [simpl in Hf|done].
    injection Hf as <- <-. split; [done|]. by apply accum_outer_null in Hl.
  - unfold integration_fcn in Hf.
    destruct (index lists 0) as [values|]; [simpl in Hf|done].
    destruct (index lists 1) as [bins|]; [simpl in Hf|done].
    destruct (index sizes 0) as [size|]; [simpl in Hf|done].
    destruct (int_pred size) as [bound|]; [simpl in Hf|done].
    destruct (for_upto bound _ h) as [h1|] eqn:Hl; [simpl in Hf|done].
    injection Hf as <- <-. split; [done|].
    apply for_upto_stay in Hl; [done|]. intros i s s' Hb.
    destruct (load s values i); [simpl in Hb|done].
    destruct (load s values (i + 1)); [simpl in Hb|done].
    destruct (load s bins (i + 1)); [simpl in Hb|done].
    by destruct (load s bins i).
  - unfold sin_fcn in Hf.
    destruct (index lists 0) as [input|]; [simpl in Hf|done].
    destruct (index sizes 0) as [size|]; [simpl in Hf|done].
    change (for_upto size _ h) with (for_upto size
      (unary_body sin input NULL) h) in Hf.
    destruct (for_upto size _ h) as [h1|] eqn:Hl; [simpl in Hf|done].
    injection Hf as <- <-. split; [done|].
    apply for_upto_stay in Hl; [done|]. intros i s s'.
    by rewrite unary_body_null.
  - unfold cosh_fcn in Hf.
    destruct (index lists 0) as [input|]; [simpl in Hf|done].
    destruct (index sizes 0) as [size|]; [simpl in Hf|done].
    change (for_upto size _ h) with (for_upto size
      (unary_body cosh input NULL) h) in Hf.
    destruct (for_upto size _ h) as [h1|] eqn:Hl; [simpl in Hf|done].
    injection Hf as <- <-. split; [done|].
    apply for_upto_stay in Hl; [done|]. intros i s s'.
    by rewrite unary_body_null.
Qed.

Lemma builtin_null_data_noop_witness :
  NULL = NULL ∧ Sample.buffers = Sample.buffers.
Proof.
  apply (builtin_null_data_noop Sample.sin3 Sample.cosh3 sum_fcn
           [Ptr 11] [0%Z] 1%Z Sample.buffers NULL Sample.buffers).
  - unfold builtin. auto.
  - vm_compute. reflexivity.
Defined.

(** X5. A node without data whose operation has a cell to write goes
    wrong once its inputs are evaluated: [sum_fcn] and [product_fcn] with
    an input and [sizes[0] >= 1], [sin_fcn] and [cosh_fcn] with
    [sizes[0] >= 1], [integration_fcn] with [sizes[0] >= 2].  The library
    has no operation that allocates its result. *)
Theorem null_data_node_faults (sin cosh : float → float)
    fuel node st nd rs st1 size :
  load_node st node = Some nd →
  data nd = NULL →
  collect_inputs (run_node fuel) nd st = Ok (rs, st1) →
  index (input_sizes nd) 0 = Some size →
  ((fcn nd = sum_fcn ∨ fcn nd = product_fcn) ∧
     (1 ≤ input_count nd)%Z ∧ (1 ≤ size)%Z) ∨
  ((fcn nd = sin_fcn sin ∨ fcn nd = cosh_fcn cosh) ∧ (1 ≤ size)%Z) ∨
  (fcn nd = integration_fcn ∧ (2 ≤ size)%Z) →
  run_node (S fuel) node st = Fault.
Proof.
  intros Hnd Hd Hc Hsz Hwork. rewrite run_node_S, Hnd. simpl.
  rewrite Hc. simpl.
  assert (Hf : fcn nd rs (input_sizes nd) (input_count nd) (data nd)
                 (mem st1) = None); [|by rewrite Hf].
  rewrite Hd.
  destruct Hwork as [([-> | ->] & Hk & Hs)|[([-> | ->] & Hs)|[-> Hs]]].
  - unfold sum_fcn. rewrite Hsz. simpl.
    rewrite for_upto_first_fail; [done|lia|].
    apply for_upto_first_fail; [lia|].
    apply (accum_inner_null PrimFloat.add).
  - unfold product_fcn. rewrite Hsz. simpl.
    rewrite for_upto_first_fail; [done|lia|].
    apply for_upto_first_fail; [lia|].
    apply (accum_inner_null PrimFloat.mul).
  - unfold sin_fcn. destruct (index rs 0) as [input|]; [simpl|done].
    rewrite Hsz. simpl. rewrite for_upto_first_fail; [done|lia|].
    apply (unary_body_null sin).
  - unfold cosh_fcn. destruct (index rs 0) as [input|]; [simpl|done].
    rewrite Hsz. simpl. rewrite for_upto_first_fail; [done|lia|].
    apply (unary_body_null cosh).
  - unfold integration_fcn.
    destruct (index rs 0) as [values|]; [simpl|done].
    destruct (index rs 1) as [bins|]; [simpl|done].
    rewrite Hsz. simpl. unfold int_pred, min_int.
    destruct (Z.leb_spec size (- 2 ^ 31)); [lia|]. simpl.
    rewrite for_upto_first_fail; [done|lia|].
    destruct (load (mem st1) values 0); [simpl|done].
    destruct (load (mem st1) values (0 + 1)); [simpl|done].
    destruct (load (mem st1) bins (0 + 1)); [simpl|done].
    by destruct (load (mem st1) bins 0).
Qed.

Lemma null_data_node_faults_witness :
  run_node 2 (Ptr 20) Dataless.st0 = Fault.
Proof.
  apply (null_data_node_faults Sample.sin3 Sample.cosh3 1 (Ptr 20)
           Dataless.st0 Dataless.sum_node [Ptr 11] Dataless.st0 2%Z).
  - reflexivity.
  - reflexivity.
  - vm_compute. reflexivity.
  - reflexivity.
  - left. split_and!; [by left|simpl; lia|lia].
Defined.

(** ** Accumulators are not reset *)

Lemma input_buffer_insert (h : heap) d n acc r l :
  input_buffer h d n r l → input_buffer (<[d := acc]> h) d n r l.
Proof.
  intros (b & -> & Hne & Hb & Hlen). exists b. split_and!; [done..| |done].
  by rewrite lookup_insert_ne.
Qed.

Lemma column_app j ls1 ls2 :
  column j (ls1 ++ ls2) = column j ls1 ++ column j ls2.
Proof. unfold column. apply map_app. Qed.

Lemma accum_outer_twice f rs ls d (h : heap) acc (n : nat) :
  h !! d = Some acc → n ≤ length acc →
  Forall2 (input_buffer h d n) rs ls →
  for_upto (Z.of_nat (length rs)) (accum_outer f rs (Ptr d) (Z.of_nat n))
      (<[d := accumulate f n acc ls]> h)
    = Some (<[d := accumulate f n acc (ls ++ ls)]> h).
Proof.
  intros Hd Hn Hin.
  rewrite (accum_outer_spec f rs ls d _ (accumulate f n acc ls) n).
  - rewrite insert_insert_eq. unfold accumulate. by rewrite foldl_app.
  - by rewrite lookup_insert_eq.
  - by rewrite accumulate_length.
  - eapply Forall2_impl; [exact Hin|]. intros r l.
    apply input_buffer_insert.
Qed.

(** X6. [sum_fcn] and [product_fcn] never initialise [data]: they combine
    the inputs with what it holds.  Called a second time on the same
    inputs, as when a graph is evaluated again, they leave in cell [j]
    the sum (product) of the old [data[j]] with cell [j] of the inputs
    taken twice. *)
Theorem accumulators_not_reset rs ls sizes d (h : heap) acc (n : nat) :
  index sizes 0 = Some (Z.of_nat n) →
  h !! d = Some acc →
  n ≤ length acc →
  Forall2 (input_buffer h d n) rs ls →
  (∃ h1,
     sum_fcn rs sizes (Z.of_nat (length rs)) (Ptr d) h = Some (Ptr d, h1) ∧
     sum_fcn rs sizes (Z.of_nat (length rs)) (Ptr d) h1
       = Some (Ptr d, <[d := accumulate PrimFloat.add n acc (ls ++ ls)]> h)) ∧
  (∃ h1,
     product_fcn rs sizes (Z.of_nat (length rs)) (Ptr d) h
       = Some (Ptr d, h1) ∧
     product_fcn rs sizes (Z.of_nat (length rs)) (Ptr d) h1
       = Some (Ptr d, <[d := accumulate PrimFloat.mul n acc (ls ++ ls)]> h)) ∧
  ∀ f j a, j < n → acc !! j = Some a →
    accumulate f n acc (ls ++ ls) !! j
      = Some (foldl f (foldl f a (column j ls)) (column j ls)).
Proof.
  intros Hsz Hd Hn Hin. split_and!.
  - eexists. split; [by apply (sum_fcn_spec rs ls)|].
    unfold sum_fcn. rewrite Hsz. simpl.
    change (for_upto (Z.of_nat (length rs)) _ ?h1)
      with (for_upto (Z.of_nat (length rs))
              (accum_outer PrimFloat.add rs (Ptr d) (Z.of_nat n)) h1).
    by rewrite (accum_outer_twice _ rs ls d h acc n).
  - eexists. split; [by apply (product_fcn_spec rs ls)|].
    unfold product_fcn. rewrite Hsz. simpl.
    change (for_upto (Z.of_nat (length rs)) _ ?h1)
      with (for_upto (Z.of_nat (length rs))
              (accum_outer PrimFloat.mul rs (Ptr d) (Z.of_nat n)) h1).
    by rewrite (accum_outer_twice _ rs ls d h acc n).
  - intros f j a Hj Ha. rewrite <- foldl_app, <- column_app.
    apply accumulate_lookup; [done..|].
    apply Forall_app. split;
      (clear -Hin; induction Hin as [|r l rs ls (b & _ & _ & _ & Hl) _ IH];
         by constructor).
Qed.

Lemma accumulators_not_reset_witness :
  (∃ h1,
     sum_fcn [Ptr 11] [2%Z] (Z.of_nat (length [Ptr 11])) (Ptr 15)
       Sample.buffers = Some (Ptr 15, h1) ∧
     sum_fcn [Ptr 11] [2%Z] (Z.of_nat (length [Ptr 11])) (Ptr 15) h1
       = Some (Ptr 15,
               <[15%positive := accumulate PrimFloat.add 2 [0; 0]%float
                   ([[0.5; -1]%float] ++ [[0.5; -1]%float])]>
                 Sample.buffers)) ∧
  (∃ h1,
     product_fcn [Ptr 11] [2%Z] (Z.of_nat (length [Ptr 11])) (Ptr 15)
       Sample.buffers = Some (Ptr 15, h1) ∧
     product_fcn [Ptr 11] [2%Z] (Z.of_nat (length [Ptr 11])) (Ptr 15) h1
       = Some (Ptr 15,
               <[15%positive := accumulate PrimFloat.mul 2 [0; 0]%float
                   ([[0.5; -1]%float] ++ [[0.5; -1]%float])]>
                 Sample.buffers)) ∧
  ∀ f j a, j < 2 → [0; 0]%float !! j = Some a →
    accumulate f 2 [0; 0]%float ([[0.5; -1]%float] ++ [[0.5; -1]%float]) !! j
      = Some (foldl f (foldl f a (column j [[0.5; -1]%float]))
                (column j [[0.5; -1]%float])).
Proof.
  apply (accumulators_not_reset [Ptr 11] [[0.5; -1]%float] [2%Z] 15%positive
           Sample.buffers [0; 0]%float 2).
  - reflexivity.
  - vm_compute. reflexivity.
  - simpl. lia.
  - repeat constructor. exists 11%positive.
    split_and!; [done|done|vm_compute; reflexivity|simpl; lia].
Defined.

(** Evaluated twice, the sum node of the sample graph holds twice the
    sum. *)
Example sum_node_evaluated_twice :
  ∃ st1 st2,
    run_node 3 (Ptr 5) Sample.st0 = Ok (Ptr 15, st1) ∧
    run_node 3 (Ptr 5) st1 = Ok (Ptr 15, st2) ∧
    mem st1 !! 15%positive
      = Some [(0 + Sample.sin3 0.5 + Sample.cosh3 2)%float;
              (0 + Sample.sin3 (-1) + Sample.cosh3 0)%float] ∧
    mem st2 !! 15%positive
      = Some [(0 + Sample.sin3 0.5 + Sample.cosh3 2
                 + Sample.sin3 0.5 + Sample.cosh3 2)%float;
              (0 + Sample.sin3 (-1) + Sample.cosh3 0
                 + Sample.sin3 (-1) + Sample.cosh3 0)%float].
Proof.
  eexists _, _. split_and!; vm_compute; reflexivity.
Qed.

(** ** Too few inputs *)

(** X7. The operations index [lists] without looking at [num_lists]:
    [sin_fcn] and [cosh_fcn] read [lists[0]], [integration_fcn] reads
    [lists[0]] and [lists[1]].  On a node with fewer inputs than that,
    a leaf for one, the call goes wrong as soon as the inputs are
    evaluated, whatever the sizes and the data. *)
Theorem too_few_inputs_fault (sin cosh : float → float)
    fuel node st nd rs st1 :
  load_node st node = Some nd →
  collect_inputs (run_node fuel) nd st = Ok (rs, st1) →
  ((fcn nd = sin_fcn sin ∨ fcn nd = cosh_fcn cosh) ∧
     (input_count nd ≤ 0)%Z) ∨
  (fcn nd = integration_fcn ∧ (input_count nd ≤ 1)%Z) →
  run_node (S fuel) node st = Fault.
Proof.
  intros Hnd Hc Hfew. rewrite run_node_S, Hnd. simpl. rewrite Hc. simpl.
  destruct (collect_inputs_inv (run_node fuel) (λ _, True) (λ _ _, True)
              nd st rs st1) as (_ & Hlen & _); [done|done|done|].
  assert (Hf : fcn nd rs (input_sizes nd) (input_count nd) (data nd)
                 (mem st1) = None); [|by rewrite Hf].
  destruct Hfew as [([-> | ->] & Hk)|[-> Hk]].
  - destruct rs; [done|simpl in Hlen; lia].
  - destruct rs; [done|simpl in Hlen; lia].
  - unfold integration_fcn.
    destruct rs as [|r0 [|r1 rs]]; [done|done|simpl in Hlen; lia].
Qed.

Lemma too_few_inputs_fault_witness :
  run_node 1 (Ptr 1)
    {| nodes := {[ 1%positive :=
                   {| inputs := []; input_sizes := [2%Z]; input_count := 0;
                      fcn := sin_fcn Sample.sin3; data := Ptr 11 |} ]};
       mem := Sample.buffers |} = Fault.
Proof.
  eapply (too_few_inputs_fault Sample.sin3 Sample.cosh3 0 (Ptr 1) _ _ []).
  - reflexivity.
  - reflexivity.
  - left. split; [by left|]. simpl. lia.
Defined.

(** ** A graph of three levels *)

Lemma run_node_leaf fuel st node nd :
  load_node st node = Some nd → input_count nd = 0%Z → fcn nd = input_fcn →
  run_node (S fuel) node st = Ok (data nd, st).
Proof.
  intros Hnd Hcount Hop. apply run_node_unfold.
  exists nd, [], st, (mem st). rewrite Hop, Hcount, set_mem_id.
  split_and!; [done| |done|].
  - unfold collect_inputs. by rewrite Hcount.
  - unfold release_inputs. by rewrite Hcount.
Qed.

(** The second loop frees nothing when every input has data. *)
Lemma release_inputs_persistent nd rs st :
  (∀ i, (0 ≤ i < input_count nd)%Z →
     ∃ q nq, index (inputs nd) i = Some q ∧ load_node st q = Some nq ∧
             data nq ≠ NULL) →
  release_inputs nd rs st = Ok st.
Proof.
  intros Hin. unfold release_inputs.
  match goal with
  | |- for_upto ?n ?body st = _ =>
      destruct (for_upto_total (M := outcome) (λ _ s, s = st) body n st)
        as (s' & Hrun & ->); [done| |done]
  end.
  intros i s Hi ->. destruct (Hin i Hi) as (q & nq & Hq & Hnq & Hd).
  rewrite Hq. simpl. rewrite Hnq. simpl.
  destruct (data nq); [done|]. by exists st.
Qed.

Lemma run_node_unary_leaf (g : float → float) f fuel st p q d dq n x y :
  f = sin_fcn g ∨ f = cosh_fcn g →
  nodes st !! p = Some (unary_node f q n d) →
  nodes st !! q = Some (leaf_node dq) →
  mem st !! dq = Some x → mem st !! d = Some y →
  length x = n → length y = n →
  run_node (S (S fuel)) (Ptr p) st
    = Ok (Ptr d, set_mem st (<[d := map g x]> (mem st))).
Proof.
  intros Hf Hp Hq Hx Hy Hlx Hly. apply run_node_unfold.
  exists (unary_node f q n d), [Ptr dq], st, (<[d := map g x]> (mem st)).
  split_and!; [done| | |].
  - rewrite collect_inputs_eval by (simpl; lia). simpl.
    change (Pos.to_nat 1) with 1. simpl.
    by rewrite (run_node_leaf fuel st (Ptr q) (leaf_node dq)).
  - simpl.
    replace (map g x) with (map g (take n x) ++ drop n y)
      by (rewrite take_ge, drop_ge by lia; apply app_nil_r).
    destruct Hf as [-> | ->].
    + apply sin_fcn_spec with (b := dq); (done || lia).
    + apply cosh_fcn_spec with (b := dq); (done || lia).
  - apply release_inputs_persistent. simpl. intros i Hi.
    assert (i = 0%Z) as -> by lia. by exists (Ptr q), (leaf_node dq).
Qed.

(** X8. The operations compose through the evaluator as the graph says.
    Take [sum(sin(a), cosh(b))] with declared sizes [n]: leaves [a] and
    [b] with buffers of [n] cells, a sine node and a hyperbolic cosine
    node with buffers of [n] cells, and a sum node whose buffer holds [n]
    zeros.  The buffer of the sine is not the one of [b], nor the one of
    the hyperbolic cosine, nor the one of the sum, and the buffer of the
    hyperbolic cosine is not the one of the sum.  Then the call on the
    sum, three levels deep, returns the buffer of the sum, cell [j] of
    which holds [0 + sin(a[j]) + cosh(b[j])]; the buffers of the two
    unary nodes hold their own results, and no node is changed. *)
Theorem sum_of_unaries_correct (sin cosh : float → float)
    st pa pb ps pc psum da db ds dc dsum n xa xb ys yc :
  nodes st !! pa = Some (leaf_node da) →
  nodes st !! pb = Some (leaf_node db) →
  nodes st !! ps = Some (unary_node (sin_fcn sin) pa n ds) →
  nodes st !! pc = Some (unary_node (cosh_fcn cosh) pb n dc) →
  nodes st !! psum = Some (sum2_node ps pc n dsum) →
  mem st !! da = Some xa → mem st !! db = Some xb →
  mem st !! ds = Some ys → mem st !! dc = Some yc →
  mem st !! dsum = Some (replicate n 0%float) →
  length xa = n → length xb = n → length ys = n → length yc = n →
  ds ≠ db → ds ≠ dc → ds ≠ dsum → dc ≠ dsum →
  ∃ st' out,
    run_node 3 (Ptr psum) st = Ok (Ptr dsum, st') ∧
    nodes st' = nodes st ∧
    mem st' !! ds = Some (map sin xa) ∧
    mem st' !! dc = Some (map cosh xb) ∧
    mem st' !! dsum = Some out ∧
    length out = n ∧
    ∀ j a b, xa !! j = Some a → xb !! j = Some b →
      out !! j = Some (0 + sin a + cosh b)%float.
Proof.
  intros Hpa Hpb Hps Hpc Hpsum Hxa Hxb Hys Hyc Hzero Hla Hlb Hls Hlc
    Hsb Hsc Hss Hcs.
  set (hs := <[ds := map sin xa]> (mem st)).
  set (hc := <[dc := map cosh xb]> hs).
  set (out := accumulate PrimFloat.add n (replicate n 0%float)
                [map sin xa; map cosh xb]).
  assert (Hrs : run_node 2 (Ptr ps) st = Ok (Ptr ds, set_mem st hs)).
  { by apply (run_node_unary_leaf sin (sin_fcn sin) 0 st ps pa ds da n xa ys);
      [left|..]. }
  assert (Hrc : run_node 2 (Ptr pc) (set_mem st hs)
                = Ok (Ptr dc, set_mem st hc)).
  { apply (run_node_unary_leaf cosh (cosh_fcn cosh) 0 (set_mem st hs)
             pc pb dc db n xb yc); [by right|done|done| | |done|done];
      unfold hs; simpl; by rewrite lookup_insert_ne by congruence. }
  exists (set_mem st (<[dsum := out]> hc)), out. split_and!.
  - apply run_node_unfold.
    exists (sum2_node ps pc n dsum), [Ptr ds; Ptr dc], (set_mem st hc),
      (<[dsum := out]> hc).
    split_and!; [done| | |].
    + rewrite collect_inputs_eval by (simpl; lia). simpl.
      change (Pos.to_nat 2) with 2. simpl. rewrite Hrs. simpl.
      by rewrite Hrc.
    + change (input_count (sum2_node ps pc n dsum))
        with (Z.of_nat (length [Ptr ds; Ptr dc])).
      apply (sum_fcn_spec [Ptr ds; Ptr dc] [map sin xa; map cosh xb]).
      * done.
      * unfold hc, hs. simpl.
        by do 2 (rewrite lookup_insert_ne by congruence).
      * by rewrite length_replicate.
      * repeat constructor.
        -- exists ds. split_and!; [done|done| |by rewrite length_map, Hla].
           unfold hc, hs. simpl. rewrite lookup_insert_ne by congruence.
           by rewrite lookup_insert_eq.
        -- exists dc. split_and!; [done|done| |by rewrite length_map, Hlb].
           unfold hc. simpl. by rewrite lookup_insert_eq.
    + apply release_inputs_persistent. simpl. intros i Hi.
      assert (i = 0 ∨ i = 1)%Z as [-> | ->] by lia.
      * by exists (Ptr ps), (unary_node (sin_fcn sin) pa n ds).
      * by exists (Ptr pc), (unary_node (cosh_fcn cosh) pb n dc).
  - done.
  - simpl. unfold hc, hs.
    do 2 (rewrite lookup_insert_ne by congruence).
    by rewrite lookup_insert_eq.
  - simpl. unfold hc. rewrite lookup_insert_ne by congruence.
    by rewrite lookup_insert_eq.
  - simpl. by rewrite lookup_insert_eq.
  - unfold out. by rewrite accumulate_length, length_replicate.
  - intros j a b Ha Hb. apply lookup_lt_Some in Ha as Hj.
    unfold out. rewrite (accumulate_lookup _ _ _ _ j 0%float).
    + simpl.
      rewrite (nth_lookup_Some (map sin xa) j 0%float (sin a))
        by (by rewrite list_lookup_fmap, Ha).
      by rewrite (nth_lookup_Some (map cosh xb) j 0%float (cosh b))
        by (by rewrite list_lookup_fmap, Hb).
    + lia.
    + apply lookup_replicate_2. lia.
    + repeat constructor; rewrite length_map; lia.
Qed.

Lemma sum_of_unaries_correct_witness :
  ∃ st' out,
    run_node 3 (Ptr 5) Sample.st0 = Ok (Ptr 15, st') ∧
    nodes st' = nodes Sample.st0 ∧
    mem st' !! 13%positive = Some (map Sample.sin3 [0.5; -1]%float) ∧
    mem st' !! 14%positive = Some (map Sample.cosh3 [2; 0]%float) ∧
    mem st' !! 15%positive = Some out ∧
    length out = 2 ∧
    ∀ j a b, [0.5; -1]%float !! j = Some a → [2; 0]%float !! j = Some b →
      out !! j = Some (0 + Sample.sin3 a + Sample.cosh3 b)%float.
Proof.
  apply (sum_of_unaries_correct Sample.sin3 Sample.cosh3 Sample.st0
           1%positive 2%positive 3%positive 4%positive 5%positive
           11%positive 12%positive 13%positive 14%positive 15%positive
           2 [0.5; -1]%float [2; 0]%float [0; 0]%float [0; 0]%float);
    (reflexivity || discriminate || (vm_compute; reflexivity)).
Defined.

(** ** An input shorter than [sizes[0]] *)

Lemma for_loop_split (body : Z → heap → option heap) (a b : nat) i0
    (s : heap) :
  for_loop (a + b) i0 body s
    = s' ← for_loop a i0 body s; for_loop b (i0 + Z.of_nat a)%Z body s'.
Proof.
  revert i0 s. induction a as [|a IH]; intros i0 s.
  - replace (i0 + Z.of_nat 0)%Z with i0 by lia. done.
  - replace (i0 + Z.of_nat (S a))%Z with (i0 + 1 + Z.of_nat a)%Z by lia.
    change (S a + b) with (S (a + b)).
    change (for_loop (S (a + b)) i0 body s)
      with (s1 ← body i0 s; for_loop (a + b) (i0 + 1)%Z body s1).
    change (for_loop (S a) i0 body s)
      with (s1 ← body i0 s; for_loop a (i0 + 1)%Z body s1).
    destruct (body i0 s) as [s1|]; [simpl|done]. apply IH.
Qed.

(** A loop goes wrong when it reaches an iteration that does. *)
Lemma for_upto_fail_at (body : Z → heap → option heap) n i (h s : heap) :
  (0 ≤ i < n)%Z →
  for_upto i body h = Some s → body i s = None →
  for_upto n body h = None.
Proof.
  intros Hi Hpre Hfail. unfold for_upto in *.
  replace (Z.to_nat n) with (Z.to_nat i + S (Z.to_nat (n - i - 1))) by lia.
  rewrite for_loop_split, Hpre. simpl.
  replace (0 + Z.of_nat (Z.to_nat i))%Z with i by lia. by rewrite Hfail.
Qed.

Lemma accum_outer_prefix f rs ls d (h : heap) acc (n k : nat) :
  h !! d = Some acc → n ≤ length acc → k ≤ length rs →
  Forall2 (input_buffer h d n) (take k rs) ls →
  for_upto (Z.of_nat k) (accum_outer f rs (Ptr d) (Z.of_nat n)) h
    = Some (<[d := accumulate f n acc ls]> h).
Proof.
  intros Hd Hna Hk Hin.
  pose (P := λ (i : Z) (s : heap),
    s = <[d := accumulate f n acc (take (Z.to_nat i) ls)]> h).
  destruct (for_upto_total (M := option) P
              (accum_outer f rs (Ptr d) (Z.of_nat n))
              (Z.of_nat k) h) as (s' & Hrun & HP).
  - unfold P. simpl. by rewrite insert_id.
  - unfold P. intros i s Hi ->.
    destruct (lookup_lt_is_Some_2 (take k rs) (Z.to_nat i)) as [r Hr];
      [rewrite length_take; lia|].
    destruct (Forall2_lookup_l _ _ _ _ _ Hin Hr)
      as (l & Hl & b & -> & Hb & Hhb & Hlen).
    rewrite lookup_take_lt in Hr by lia.
    eexists. split.
    + unfold accum_outer. apply (accum_inner_spec f rs d h i b l); try done.
      * apply index_Some. split; [lia|done].
      * by rewrite accumulate_length.
    + replace (Z.to_nat (i + 1)) with (S (Z.to_nat i)) by lia.
      rewrite (take_S_r _ _ _ Hl). unfold accumulate.
      by rewrite foldl_snoc.
  - rewrite Hrun. unfold P in HP. rewrite HP. do 3 f_equal.
    rewrite take_ge; [done|]. apply Forall2_length in Hin.
    rewrite length_take in Hin. lia.
Qed.

Lemma accum_outer_short f rs ls d (h : heap) acc (n i : nat) b l :
  h !! d = Some acc → n ≤ length acc →
  rs !! i = Some (Ptr b) → b ≠ d → h !! b = Some l → length l < n →
  Forall2 (input_buffer h d n) (take i rs) ls →
  for_upto (Z.of_nat (length rs)) (accum_outer f rs (Ptr d) (Z.of_nat n)) h
    = None.
Proof.
  intros Hd Hna Hr Hne Hb Hshort Hin.
  apply lookup_lt_Some in Hr as Hi.
  apply (for_upto_fail_at _ _ (Z.of_nat i) h
           (<[d := accumulate f n acc ls]> h)); [lia| |].
  - apply accum_outer_prefix; (done || lia).
  - unfold accum_outer.
    set (acc' := accumulate f n acc ls).
    apply (for_upto_fail_at _ _ (Z.of_nat (length l)) _
             (<[d := accum_row f (length l) acc' l]> h)); [lia| |].
    + apply (accum_inner_spec f rs d h (Z.of_nat i) b l); [|done..| |].
      * by rewrite index_of_nat.
      * done.
      * unfold acc'. rewrite accumulate_length. lia.
    + unfold accum_inner. rewrite index_of_nat, Hr. simpl.
      assert (Hload : load (<[d := accum_row f (length l) acc' l]> h)
                        (Ptr b) (Z.of_nat (length l)) = None).
      { unfold load. rewrite lookup_insert_ne by congruence. rewrite Hb.
        simpl. rewrite index_of_nat. by apply lookup_ge_None_2. }
      by rewrite Hload.
Qed.

(** X9. [sizes[0]] governs every input: [sum_fcn] and [product_fcn] read
    [sizes[0]] cells of each input buffer, whatever [sizes[i]] says.  If
    the buffer of some input has fewer cells, the inputs before it being
    in order, the call is undefined: it reads past the end of that
    buffer. *)
Theorem short_input_undefined rs ls sizes d (h : heap) acc (n i : nat) b l :
  index sizes 0 = Some (Z.of_nat n) →
  h !! d = Some acc → n ≤ length acc →
  rs !! i = Some (Ptr b) → b ≠ d → h !! b = Some l → length l < n →
  Forall2 (input_buffer h d n) (take i rs) ls →
  sum_fcn rs sizes (Z.of_nat (length rs)) (Ptr d) h = None ∧
  product_fcn rs sizes (Z.of_nat (length rs)) (Ptr d) h = None.
Proof.
  intros Hsz Hd Hna Hr Hne Hb Hshort Hin. split.
  - unfold sum_fcn. rewrite Hsz. simpl.
    change (for_upto (Z.of_nat (length rs)) _ h)
      with (for_upto (Z.of_nat (length rs))
              (accum_outer PrimFloat.add rs (Ptr d) (Z.of_nat n)) h).
    by rewrite (accum_outer_short _ rs ls d h acc n i b l).
  - unfold product_fcn. rewrite Hsz. simpl.
    change (for_upto (Z.of_nat (length rs)) _ h)
      with (for_upto (Z.of_nat (length rs))
              (accum_outer PrimFloat.mul rs (Ptr d) (Z.of_nat n)) h).
    by rewrite (accum_outer_short _ rs ls d h acc n i b l).
Qed.

Lemma short_input_undefined_witness :
  sum_fcn [Ptr 12; Ptr 11] [3%Z; 2%Z] (Z.of_nat (length [Ptr 12; Ptr 11]))
      (Ptr 13) (<[12%positive := [2; 0; 4]%float]>
                  (<[13%positive := [3; 1; 7]%float]> Sample.buffers))
    = None ∧
  product_fcn [Ptr 12; Ptr 11] [3%Z; 2%Z]
      (Z.of_nat (length [Ptr 12; Ptr 11]))
      (Ptr 13) (<[12%positive := [2; 0; 4]%float]>
                  (<[13%positive := [3; 1; 7]%float]> Sample.buffers))
    = None.
Proof.
  apply (short_input_undefined [Ptr 12; Ptr 11] [[2; 0; 4]%float]
           [3%Z; 2%Z] 13%positive _ [3; 1; 7]%float 3 1 11%positive
           [0.5; -1]%float).
  - reflexivity.
  - vm_compute. reflexivity.
  - simpl. lia.
  - reflexivity.
  - discriminate.
  - vm_compute. reflexivity.
  - simpl. lia.
  - repeat constructor. exists 12%positive.
    split_and!; [done|done|vm_compute; reflexivity|simpl; lia].
Defined.

(** ** A null result, under the protocol *)

(** Under the ownership protocol a call whose inputs have been evaluated
    and whose operation has returned returns too. *)
Lemma run_node_owned_returns fuel node st nd rs st1 r h :
  (∀ a n, nodes st !! a = Some n → owning (fcn n)) →
  load_node st node = Some nd →
  collect_inputs (run_node fuel) nd st = Ok (rs, st1) →
  fcn nd rs (input_sizes nd) (input_count nd) (data nd) (mem st1)
    = Some (r, h) →
  ∃ st', run_node (S fuel) node st = Ok (r, st').
Proof.
  intros Hown Hnd Hc Hf.
  destruct (collect_inputs_owned fuel nd st rs st1)
    as (Hn1 & Hdom & Hfresh & Hdis); [|done|].
  { intros q s r0 s' Hn Hq. apply run_node_owned in Hq as (nq & Hnq & Hres).
    - exists nq. split; [by rewrite <- (load_node_nodes st s)|done].
    - intros a n Ha. apply (Hown a). by rewrite <- Hn. }
  assert (Hop : owned_result (data nd) r (mem st1) h).
  { destruct node as [|a]; [done|].
    exact (Hown a nd Hnd _ _ _ _ _ _ _ Hf). }
  destruct (run_node_intro fuel node st nd rs st1 r h Hnd Hc Hf Hdis)
    as (st' & Hrun & _).
  - intros i b Hi Ht. apply elem_of_dom.
    assert (Hin : b ∈ dom (mem st1)).
    { apply Hdom. right. by exists i. }
    unfold owned_result in Hop. destruct (data nd) as [|a].
    + destruct r as [|b0]; [by rewrite Hop|].
      destruct Hop as [_ ->]. set_solver.
    + destruct Hop as [_ ->]. done.
  - by exists st'.
Qed.

(** C2, amended.  Take a node without data, in a graph whose operations
    keep to the ownership protocol, and let its inputs have been
    evaluated.  When its operation returns [NULL], the call does not
    fail: it returns that [NULL] as the result of the node.  The release
    loop is not assumed to return, it is shown to.  The evaluator puts no
    buffer of its own in place of the missing result: the memory after
    the call holds nothing that the operation did not leave, and the
    buffers live after the call are those that were live before it. *)
Theorem null_result_returned fuel st node nd rs st1 h :
  (∀ a n, nodes st !! a = Some n → owning (fcn n)) →
  load_node st node = Some nd →
  data nd = NULL →
  collect_inputs (run_node fuel) nd st = Ok (rs, st1) →
  fcn nd rs (input_sizes nd) (input_count nd) NULL (mem st1)
    = Some (NULL, h) →
  ∃ st', run_node (S fuel) node st = Ok (NULL, st') ∧
         mem st' ⊆ h ∧
         dom (mem st') = dom (mem st).
Proof.
  intros Hown Hnd Hd Hc Hf.
  assert (Hfd : fcn nd rs (input_sizes nd) (input_count nd) (data nd)
                  (mem st1) = Some (NULL, h)) by (by rewrite Hd).
  destruct (run_node_owned_returns fuel node st nd rs st1 NULL h
              Hown Hnd Hc Hfd) as [st' Hrun].
  exists st'. split_and!; [done| |].
  - apply run_node_unfold in Hrun
      as (nd' & rs' & st1' & h' & Hnd' & Hc' & Hf' & Hr).
    assert (nd' = nd) as -> by congruence.
    rewrite Hc in Hc'. injection Hc' as <- <-.
    rewrite Hfd in Hf'. injection Hf' as <-.
    by apply release_inputs_sub in Hr.
  - apply (run_node_owned _ _ _ _ _ Hown) in Hrun as (nd' & Hnd' & Hres).
    assert (nd' = nd) as -> by congruence.
    by rewrite Hd in Hres.
Qed.

Lemma null_result_graph_owning :
  ∀ a n, nodes NullResult.st0 !! a = Some n → owning (fcn n).
Proof.
  intros a n Ha. simpl in Ha.
  apply lookup_insert_Some in Ha as [[_ <-]|[_ Ha]].
  - apply (builtin_owning Sample.sin3 Sample.cosh3). unfold builtin.
    simpl. auto.
  - by apply (temporary_graph_owning a).
Qed.

Lemma null_result_returned_witness :
  ∃ st', run_node 3 (Ptr 21) NullResult.st0 = Ok (NULL, st') ∧
         mem st' ⊆ mem NullResult.st1 ∧
         dom (mem st') = dom (mem NullResult.st0).
Proof.
  apply (null_result_returned 2 NullResult.st0 (Ptr 21) NullResult.null_node
           [Ptr 17] NullResult.st1 (mem NullResult.st1)).
  - apply null_result_graph_owning.
  - reflexivity.
  - reflexivity.
  - vm_compute. reflexivity.
  - reflexivity.
Defined.

(** In that run the release loop has a buffer to free: the temporary made
    by the input is live when the operation returns [NULL] and dead after
    the call. *)
Example null_result_frees_temporary :
  run_node 3 (Ptr 21) NullResult.st0 = Ok (NULL, NullResult.st0) ∧
  mem NullResult.st1 !! 17%positive = Some [0.5; -1]%float ∧
  mem NullResult.st0 !! 17%positive = None.
Proof. split_and!; vm_compute; reflexivity. Qed.

(** The protocol cannot be dropped.  Node 22 has no data and its
    operation returns [NULL], but its two inputs are one node that hands
    out the buffer of a leaf: the release loop frees that buffer twice
    and the call goes wrong. *)
Example null_result_double_free :
  load_node NullResult.st_twice (Ptr 22) = Some NullResult.twice_node ∧
  collect_inputs (run_node 2) NullResult.twice_node NullResult.st_twice
    = Ok ([Ptr 11; Ptr 11], NullResult.st_twice) ∧
  input_fcn [Ptr 11; Ptr 11] [2%Z; 2%Z] 2%Z NULL (mem NullResult.st_twice)
    = Some (NULL, mem NullResult.st_twice) ∧
  run_node 3 (Ptr 22) NullResult.st_twice = Fault.
Proof. split_and!; vm_compute; reflexivity. Qed.
